(** * IncidentIQ: the 4-stage hybrid retrieval pipeline

    A shallow embedding of [src/core/retrieval.py] (candidates, the four
    stages, the orchestrator), of the confidence classifier of
    [src/core/pattern_matching.py] and [src/core/pattern_matching_v2.py],
    and of the threshold validation of [src/core/config.py].

    Modelling conventions.
    - Python [float] scores are rationals ([Q]); the code only adds,
      multiplies by constants and compares them.  Rounding of binary
      floating point is not modelled.
    - Python [str] is [string], [dict] payloads are [gmap string string],
      the [set] of seen identifiers is a [gset string].
    - A raised exception is the [Raise] case of [outcome]; awaiting a
      collaborator (vector index, embedding service) is a call to a field
      of [Services] that may answer [Raise].
    - Candidates are mutated in place by the Python code.  After the merge
      every candidate object occurs once in the list that is passed on, so
      in-place update is modelled by mapping a setter over the list.
    - [latency_ms], [total_latency_ms] and [timestamp] are wall-clock
      readings and are left out of the records. *)

From Stdlib Require Import QArith Qminmax ZArith Lia Lqa Sorted.
From stdpp Require Import base gmap strings list.

Local Open Scope Z_scope.
Set Warnings "-clear-no-such-hyp".

(** ** Exceptions *)

Inductive exn : Type :=
  | AttributeError (attr : string)
  | CollaboratorError (msg : string)
  | ValueError (msg : string)
  | ValidationError (fields : list string).

Inductive outcome (A : Type) : Type :=
  | Ok (a : A)
  | Raise (e : exn).
Arguments Ok {A} a.
Arguments Raise {A} e.

Definition obind {A B} (k : A -> outcome B) (m : outcome A) : outcome B :=
  match m with
  | Ok a => k a
  | Raise e => Raise e
  end.

#[global] Instance outcome_ret : MRet outcome := fun A a => Ok a.
#[global] Instance outcome_bind : MBind outcome := fun A B k m => obind k m.

Fixpoint omapM {A B} (f : A -> outcome B) (l : list A) : outcome (list B) :=
  match l with
  | [] => Ok []
  | a :: l' => b ← f a; bs ← omapM f l'; Ok (b :: bs)
  end.

(** ** Python helpers *)

(** [l[:n]] for a Python [int] n: a negative n counts from the end. *)
Definition slice_to {A} (n : Z) (l : list A) : list A :=
  if 0 <=? n then take (Z.to_nat n) l
  else take (Z.to_nat (Z.of_nat (length l) + n)) l.

Definition Qleb (x y : Q) : bool := Qle_bool x y.
Definition Qltb (x y : Q) : bool :=
  match (x ?= y)%Q with Lt => true | _ => false end.

(** [l.sort(key=key, reverse=True)]: descending and stable, an element
    only moves past elements with a strictly greater key. *)
Section Sort.
Context {A : Type} (key : A -> Q).

Fixpoint insert_desc (x : A) (l : list A) : list A :=
  match l with
  | [] => [x]
  | y :: l' => if Qltb (key x) (key y) then y :: insert_desc x l'
               else x :: y :: l'
  end.

Definition sort_desc (l : list A) : list A := foldr insert_desc [] l.

Definition sorted_desc (l : list A) : Prop :=
  StronglySorted (fun a b => (key b <= key a)%Q) l.
End Sort.

(** ** Data model *)

Inductive RetrievalStage : Type :=
  | BM25_FILTER
  | BI_ENCODER
  | COLBERT
  | CROSS_ENCODER.

Record RetrievalMetrics : Type := mkMetrics {
  stage : RetrievalStage;
  candidates_in : nat;
  candidates_out : nat
}.

Record CandidateIncident : Type := mkCandidate {
  incident_id : string;
  title : string;
  payload : gmap string string;
  bm25_score : Q;
  bi_encoder_score : Q;
  colbert_score : Q;
  cross_encoder_score : Q;
  final_score : Q;
  match_reasons : list string
}.

Definition set_colbert_score (v : Q) (c : CandidateIncident) : CandidateIncident :=
  mkCandidate (incident_id c) (title c) (payload c) (bm25_score c)
    (bi_encoder_score c) v (cross_encoder_score c) (final_score c)
    (match_reasons c).

Definition set_cross_encoder_score (v : Q) (c : CandidateIncident) : CandidateIncident :=
  mkCandidate (incident_id c) (title c) (payload c) (bm25_score c)
    (bi_encoder_score c) (colbert_score c) v (final_score c)
    (match_reasons c).

Definition set_final_score (v : Q) (c : CandidateIncident) : CandidateIncident :=
  mkCandidate (incident_id c) (title c) (payload c) (bm25_score c)
    (bi_encoder_score c) (colbert_score c) (cross_encoder_score c) v
    (match_reasons c).

Definition set_match_reasons (v : list string) (c : CandidateIncident) : CandidateIncident :=
  mkCandidate (incident_id c) (title c) (payload c) (bm25_score c)
    (bi_encoder_score c) (colbert_score c) (cross_encoder_score c)
    (final_score c) v.

(** A hit returned by the vector database ([r.id] already passed through
    [str]). *)
Record ScoredPoint : Type := mkPoint {
  sp_id : string;
  sp_score : Q;
  sp_payload : gmap string string
}.

(** ** Candidate merging: [HybridRetrievalPipeline._merge_candidates] *)

Definition merge_step (st : gset string * list CandidateIncident)
    (candidate : CandidateIncident) : gset string * list CandidateIncident :=
  let '(seen, merged) := st in
  if decide (incident_id candidate ∈ seen) then (seen, merged)
  else ({[incident_id candidate]} ∪ seen, merged ++ [candidate]).

Definition merge_loop (st : gset string * list CandidateIncident)
    (l : list CandidateIncident) : gset string * list CandidateIncident :=
  foldl merge_step st l.

Definition _merge_candidates (list1 list2 : list CandidateIncident)
    : list CandidateIncident :=
  snd (merge_loop (∅, []) (list1 ++ list2)).

(** ** Collaborators

    [qdrant_search_text collection query limit] and
    [qdrant_search_vector collection vector limit] stand for the awaited
    [self.qdrant.search(...)] calls, [embed] for
    [self.embedding_service.embed], and [cosine_similarity q d] for
    [float(np.dot(q, d) / (np.linalg.norm(q) * np.linalg.norm(d)))]. *)
Record Services (Embedding : Type) : Type := mkServices {
  qdrant_search_text : string -> string -> Z -> outcome (list ScoredPoint);
  qdrant_search_vector : string -> Embedding -> Z -> outcome (list ScoredPoint);
  embed : string -> outcome Embedding;
  cosine_similarity : Embedding -> Embedding -> Q
}.
Arguments qdrant_search_text {Embedding} _ _ _ _.
Arguments qdrant_search_vector {Embedding} _ _ _ _.
Arguments embed {Embedding} _ _.
Arguments cosine_similarity {Embedding} _ _ _.

Inductive CrossEncoderModel : Type := cross_encoder_model.

Record ColBERTStage : Type := mkColBERT {
  colbert_enabled : bool
}.

Record CrossEncoderStage : Type := mkCrossEncoder {
  model : option CrossEncoderModel;
  enabled : bool;
  top_k : Z
}.

Record HybridRetrievalPipeline : Type := mkPipeline {
  colbert : ColBERTStage;
  cross_encoder : CrossEncoderStage
}.

Record PipelineResult : Type := mkResult {
  matches : list CandidateIncident;
  metrics : list RetrievalMetrics
}.

(** Truth value of the optional [filters] dict: [None] and [{}] are false. *)
Definition filters_truthy (filters : option (gmap string string)) : bool :=
  match filters with
  | Some f => negb (bool_decide (f = ∅))
  | None => false
  end.

(** [self._build_filters(filters) if filters else None]: neither stage
    class defines [_build_filters], so the attribute lookup raises as soon
    as [filters] is true. *)
Definition query_filter (filters : option (gmap string string))
    : outcome (option (gmap string string)) :=
  if filters_truthy filters then Raise (AttributeError "_build_filters")
  else Ok None.

(** [r.payload.get(key, "")] *)
Definition payload_get (p : gmap string string) (key : string) : string :=
  default ""%string (p !! key).

Section Stages.
Context {Embedding : Type} (svc : Services Embedding).

(** *** Stage 1: [BM25FilterStage.search] *)
Definition bm25_candidate (r : ScoredPoint) : CandidateIncident :=
  mkCandidate (sp_id r) (payload_get (sp_payload r) "title") (sp_payload r)
    (sp_score r) 0 0 0 0 [].

Definition BM25FilterStage_search (query : string)
    (filters : option (gmap string string)) (limit : Z)
    : outcome (list CandidateIncident * RetrievalMetrics) :=
  _ ← query_filter filters;
  results ← qdrant_search_text svc "incidents_bm25" query limit;
  let candidates := map bm25_candidate results in
  Ok (candidates,
      mkMetrics BM25_FILTER (length candidates) (length candidates)).

(** *** Stage 2: [BiEncoderStage.search] *)
Definition bi_encoder_candidate (r : ScoredPoint) : CandidateIncident :=
  mkCandidate (sp_id r) (payload_get (sp_payload r) "title") (sp_payload r)
    0 (sp_score r) 0 0 0 [].

Definition BiEncoderStage_search (query : string)
    (filters : option (gmap string string)) (limit : Z)
    : outcome (list CandidateIncident * RetrievalMetrics) :=
  query_embedding ← embed svc query;
  _ ← query_filter filters;
  results ← qdrant_search_vector svc "incidents_summary" query_embedding limit;
  let candidates := map bi_encoder_candidate results in
  Ok (candidates,
      mkMetrics BI_ENCODER (length candidates) (length candidates)).

(** *** Stage 3: [ColBERTStage.score] *)
Definition detail_text (candidate : CandidateIncident) : string :=
  let d := payload_get (payload candidate) "description" in
  match payload candidate !! "error_message" with
  | Some e => if bool_decide (e = ""%string) then d
              else String.append d (String.append " " e)
  | None => d
  end.

Definition colbert_rescore (query : string) (candidate : CandidateIncident)
    : outcome CandidateIncident :=
  query_embedding ← embed svc query;
  detail_embedding ← embed svc (detail_text candidate);
  Ok (set_colbert_score
        (cosine_similarity svc query_embedding detail_embedding) candidate).

Definition ColBERTStage_score (self : ColBERTStage) (query : string)
    (candidates : list CandidateIncident) (limit : Z)
    : outcome (list CandidateIncident * RetrievalMetrics) :=
  if negb (colbert_enabled self) then
    let candidates' :=
      map (fun c => set_colbert_score (bi_encoder_score c) c) candidates in
    Ok (candidates',
        mkMetrics COLBERT (length candidates) (length candidates))
  else
    scored ← omapM (colbert_rescore query) (slice_to 50 candidates);
    let scored' := sort_desc colbert_score scored in
    Ok (slice_to limit scored',
        mkMetrics COLBERT (length candidates) (length (slice_to limit scored'))).

(** *** Stage 4: [CrossEncoderStage.rerank] *)
Definition rerank_disabled (self : CrossEncoderStage) : bool :=
  negb (enabled self) || negb (bool_decide (is_Some (model self))).

Definition placeholder_score (i : nat) (candidate : CandidateIncident) : Q :=
  ((0.10 * bm25_score candidate +
    0.25 * bi_encoder_score candidate +
    0.40 * colbert_score candidate +
    0.25 * bi_encoder_score candidate)
   * (1.0 - (inject_Z (Z.of_nat i) * 0.01)))%Q.

Definition CrossEncoderStage_rerank (self : CrossEncoderStage) (query : string)
    (candidates : list CandidateIncident) (limit : Z)
    : outcome (list CandidateIncident * RetrievalMetrics) :=
  if rerank_disabled self then
    let final := slice_to limit candidates in
    Ok (final, mkMetrics CROSS_ENCODER (length candidates) (length final))
  else
    let scored :=
      imap (fun i c => set_cross_encoder_score (placeholder_score i c) c)
           (slice_to (top_k self) candidates) in
    let reranked := sort_desc cross_encoder_score scored in
    Ok (slice_to limit reranked,
        mkMetrics CROSS_ENCODER (length candidates)
                  (length (slice_to limit reranked))).

(** *** Orchestrator *)
Definition _calculate_final_score (candidate : CandidateIncident) : Q :=
  (0.10 * bm25_score candidate +
   0.25 * bi_encoder_score candidate +
   0.40 * colbert_score candidate +
   0.25 * cross_encoder_score candidate)%Q.

Definition _explain_match (candidate : CandidateIncident) (query : string)
    : list string :=
  (if Qltb 0.8 (bm25_score candidate)
   then ["Strong keyword match"%string] else []) ++
  (if Qltb 0.9 (bi_encoder_score candidate)
   then ["High semantic similarity"%string] else []) ++
  (if Qltb 0.9 (colbert_score candidate)
   then ["Token-level precision match"%string] else []) ++
  (if Qltb 0.9 (cross_encoder_score candidate)
   then ["Cross-encoder verified"%string] else []).

Definition finalize (query : string) (candidate : CandidateIncident)
    : CandidateIncident :=
  let c := set_final_score (_calculate_final_score candidate) candidate in
  set_match_reasons (_explain_match c query) c.

Definition search (self : HybridRetrievalPipeline) (query : string)
    (filters : option (gmap string string)) (limit : Z)
    : outcome PipelineResult :=
  '(bm25_candidates, bm25_metrics) ← BM25FilterStage_search query filters 100;
  '(bi_encoder_candidates, bi_metrics) ← BiEncoderStage_search query filters 50;
  let merged := _merge_candidates bm25_candidates bi_encoder_candidates in
  '(colbert_candidates, colbert_metrics) ←
      ColBERTStage_score (colbert self) query merged 20;
  '(final_candidates, cross_metrics) ←
      CrossEncoderStage_rerank (cross_encoder self) query colbert_candidates limit;
  Ok (mkResult (map (finalize query) final_candidates)
        [bm25_metrics; bi_metrics; colbert_metrics; cross_metrics]).
End Stages.

(** *** [PipelineResult.exact_matches], [PipelineResult.partial_matches] *)
Definition exact_matches (self : PipelineResult) : list CandidateIncident :=
  filter (fun m => Qleb 0.92 (final_score m) = true) (matches self).

Definition partial_matches (self : PipelineResult) : list CandidateIncident :=
  filter (fun m => Qleb 0.70 (final_score m) && Qltb (final_score m) 0.92 = true)
         (matches self).

(** ** Confidence tiers and thresholds *)

Inductive MatchConfidence : Type :=
  | EXACT
  | PARTIAL
  | NONE.

(** The threshold fields of [PatternMatchingSettings] in [config.py]. *)
Record PatternMatchingSettings : Type := mkSettings {
  exact_match_threshold : Q;
  partial_match_threshold : Q;
  min_match_threshold : Q
}.

Definition default_settings : PatternMatchingSettings :=
  mkSettings 0.92 0.70 0.50.

(** [PatternMatchingSettings.validate_thresholds]: the field validator
    attached to the three threshold fields. *)
Definition threshold_in_range (v : Q) : bool := Qleb 0 v && Qleb v 1.

Definition validate_thresholds (v : Q) : outcome Q :=
  if negb (threshold_in_range v)
  then Raise (ValueError "Threshold must be between 0 and 1")
  else Ok v.

(** Names of the fields whose validator raised. *)
Definition failing_fields (fields : list (string * Q)) : list string :=
  omap (fun '(name, v) =>
          match validate_thresholds v with
          | Ok _ => None
          | Raise _ => Some name
          end) fields.

(** Constructing the settings from explicit threshold values: every
    field validator runs, and the construction raises one validation
    error naming the fields that failed. *)
Definition PatternMatchingSettings_init (exact partial min : Q)
    : outcome PatternMatchingSettings :=
  match failing_fields [("exact_match_threshold"%string, exact);
                        ("partial_match_threshold"%string, partial);
                        ("min_match_threshold"%string, min)] with
  | [] => Ok (mkSettings exact partial min)
  | errs => Raise (ValidationError errs)
  end.

Module PatternMatchingEngine.
(** [PatternMatchingEngine._calculate_confidence] *)
Definition _calculate_confidence (settings : PatternMatchingSettings)
    (similarity_score : Q) : MatchConfidence :=
  if Qleb (exact_match_threshold settings) similarity_score then EXACT
  else if Qleb (partial_match_threshold settings) similarity_score then PARTIAL
  else NONE.
End PatternMatchingEngine.

(** The fields of [IncidentMatch] that come from the candidate itself;
    the remaining ones are plain [payload.get] lookups. *)
Record IncidentMatch : Type := mkMatch {
  im_incident_id : string;
  im_title : string;
  similarity_score : Q;
  confidence : MatchConfidence;
  im_match_reasons : list string
}.

Module EnhancedPatternMatchingEngine.
(** [EnhancedPatternMatchingEngine._calculate_confidence] *)
Definition _calculate_confidence (settings : PatternMatchingSettings)
    (score : Q) : MatchConfidence :=
  if Qleb (exact_match_threshold settings) score then EXACT
  else if Qleb (partial_match_threshold settings) score then PARTIAL
  else NONE.

Definition to_incident_match (settings : PatternMatchingSettings)
    (candidate : CandidateIncident) : IncidentMatch :=
  mkMatch (incident_id candidate) (title candidate) (final_score candidate)
    (_calculate_confidence settings (final_score candidate))
    (match_reasons candidate).

(** [EnhancedPatternMatchingEngine._search_with_pipeline] *)
Definition _search_with_pipeline {Embedding : Type} (svc : Services Embedding)
    (settings : PatternMatchingSettings) (pipeline : HybridRetrievalPipeline)
    (query : string) (service : option string) (limit : Z)
    : outcome (list IncidentMatch) :=
  let filters :=
    match service with
    | Some s => if bool_decide (s = ""%string) then None
                else Some ({["service"%string := s]} : gmap string string)
    | None => None
    end in
  result ← search svc pipeline query filters limit;
  Ok (map (to_incident_match settings) (matches result)).
End EnhancedPatternMatchingEngine.

(** ** The worked scenario: query "database connection timeout" *)

Module Scenario.
Definition query : string := "database connection timeout".

Definition inc1_payload : gmap string string :=
  {[ "title"%string := "Database pool exhausted"%string;
     "description"%string := "connection timeout on db"%string ]}.

Definition inc2_payload : gmap string string :=
  {[ "title"%string := "Cache node down"%string;
     "description"%string := "cache timeout"%string ]}.

(** Keyword index: INC-1 at 0.6.  Summary index: INC-1 at 0.95 and INC-2
    at 0.80.  Detail similarity: 0.93 for INC-1, 0.75 for INC-2. *)
Definition keyword_hits : list ScoredPoint :=
  [mkPoint "INC-1" 0.6 inc1_payload].

Definition semantic_hits : list ScoredPoint :=
  [mkPoint "INC-1" 0.95 inc1_payload; mkPoint "INC-2" 0.80 inc2_payload].

Definition keyword_candidates : list CandidateIncident :=
  map bm25_candidate keyword_hits.

Definition semantic_candidates : list CandidateIncident :=
  map bi_encoder_candidate semantic_hits.

Definition svc : Services string :=
  mkServices string
    (fun collection _ _ =>
       if String.eqb collection "incidents_bm25"
       then Ok keyword_hits else Ok [])
    (fun collection _ _ =>
       if String.eqb collection "incidents_summary"
       then Ok semantic_hits else Ok [])
    (fun text => Ok text)
    (fun _ d =>
       if String.eqb d "connection timeout on db" then 0.93%Q
       else if String.eqb d "cache timeout" then 0.75%Q
       else 0%Q).

(** Late interaction enabled, re-ranking disabled (no model). *)
Definition pipeline : HybridRetrievalPipeline :=
  mkPipeline (mkColBERT true) (mkCrossEncoder None false 20).

Definition run : outcome PipelineResult := search svc pipeline query None 5.

Definition answer : outcome (list IncidentMatch) :=
  EnhancedPatternMatchingEngine._search_with_pipeline
    svc default_settings pipeline query None 5.

(** The candidates as the late-interaction stage hands them on. *)
Definition scored_candidates : list CandidateIncident :=
  [set_colbert_score 0.93
     (bm25_candidate (mkPoint "INC-1" 0.6 inc1_payload));
   set_colbert_score 0.75
     (bi_encoder_candidate (mkPoint "INC-2" 0.80 inc2_payload))].

(** A keyword index that cannot be reached. *)
Definition svc_keyword_down : Services string :=
  mkServices string
    (fun _ _ _ => Raise (CollaboratorError "connection refused"))
    (qdrant_search_vector svc) (embed svc) (cosine_similarity svc).
End Scenario.

(** ** Stage metrics and result summary *)

(** [RetrievalMetrics.reduction_rate]; [/] on two Python ints is true
    division. *)
Definition reduction_rate (self : RetrievalMetrics) : Q :=
  if (candidates_in self =? 0)%nat then 0.0%Q
  else (1.0 - inject_Z (Z.of_nat (candidates_out self))
              / inject_Z (Z.of_nat (candidates_in self)))%Q.

(** The count entries of the dict built by
    [PipelineResult.to_summary_dict]; its "total_latency_ms" and
    "stage_metrics" entries carry rounded clock readings and are left
    out. *)
Record SummaryDict : Type := mkSummary {
  sd_total_matches : nat;
  sd_exact_matches : nat;
  sd_partial_matches : nat;
  sd_exact_match_rate : Q
}.

Definition to_summary_dict (self : PipelineResult) : SummaryDict :=
  mkSummary
    (length (matches self))
    (length (exact_matches self))
    (length (partial_matches self))
    (inject_Z (Z.of_nat (length (exact_matches self)))
     / inject_Z (Z.of_nat (Nat.max (length (matches self)) 1)))%Q.

(** ** Incident texts

    The fields of [Incident] read by
    [EnhancedIncident.to_detail_embedding]. *)
Record Incident : Type := mkIncident {
  inc_description : string;
  inc_error_message : option string;
  inc_symptoms : list string
}.

(** [filter(None, parts)] on a list of strings drops the empty ones. *)
Definition filter_nonempty (parts : list string) : list string :=
  filter (fun p => p <> ""%string) parts.

(** [EnhancedIncident.to_detail_embedding]; [sep.join] is
    [String.concat sep], [x or ""] is [default "" x]. *)
Definition to_detail_embedding (self : Incident) : string :=
  String.concat " "
    (filter_nonempty
       [inc_description self;
        default ""%string (inc_error_message self);
        String.concat " " (inc_symptoms self)]).

(** ** Collaborators that keep the documented score range

    [CandidateIncident] documents its stage scores as "(0-1)".  The
    indexes and the similarity are outside the code; this is the
    assumption that what they hand over lies in that range. *)
Definition scores_in_unit_interval {Embedding : Type}
    (svc : Services Embedding) : Prop :=
  (forall collection query limit hits,
     qdrant_search_text svc collection query limit = Ok hits ->
     Forall (fun h => (0 <= sp_score h <= 1)%Q) hits) /\
  (forall collection vector limit hits,
     qdrant_search_vector svc collection vector limit = Ok hits ->
     Forall (fun h => (0 <= sp_score h <= 1)%Q) hits) /\
  (forall q d, (0 <= cosine_similarity svc q d <= 1)%Q).

#[global] Instance MatchConfidence_eq_dec : EqDecision MatchConfidence.
Proof. solve_decision. Defined.

(** ** The pipeline the engine builds

    [EnhancedPatternMatchingEngine._init_pipeline]: late interaction
    enabled, re-ranking constructed with [model=None, enabled=False] and
    the default [top_k]. *)
Definition init_pipeline : HybridRetrievalPipeline :=
  mkPipeline (mkColBERT true) (mkCrossEncoder None false 20).

(** ** The loop of [_merge_candidates] as a function

    [first_seen seen l] lists the candidates of [l] whose identifier is
    neither in [seen] nor carried by an earlier candidate of [l]. *)
Fixpoint first_seen (seen : gset string) (l : list CandidateIncident)
    : list CandidateIncident :=
  match l with
  | [] => []
  | c :: l' =>
      if decide (incident_id c ∈ seen) then first_seen seen l'
      else c :: first_seen ({[incident_id c]} ∪ seen) l'
  end.

Definition ids (l : list CandidateIncident) : gset string :=
  list_to_set (incident_id <$> l).

(** * Properties *)

(** ** Comparisons on scores *)

Lemma Qleb_le (x y : Q) : Qleb x y = true <-> (x <= y)%Q.
Proof. unfold Qleb. apply Qle_bool_iff. Qed.

Lemma Qleb_gt (x y : Q) : Qleb x y = false <-> (y < x)%Q.
Proof.
  split; intros H.
  - apply Qnot_le_lt. intros Hle. apply Qleb_le in Hle. congruence.
  - destruct (Qleb x y) eqn:E; [|reflexivity].
    apply Qleb_le in E. exfalso. apply (Qlt_not_le _ _ H E).
Qed.

Lemma Qltb_lt (x y : Q) : Qltb x y = true <-> (x < y)%Q.
Proof.
  unfold Qltb. rewrite Qlt_alt.
  destruct (x ?= y)%Q; split; congruence.
Qed.

Lemma Qltb_ge (x y : Q) : Qltb x y = false <-> (y <= x)%Q.
Proof.
  split; intros H.
  - apply Qnot_lt_le. intros Hlt. apply Qltb_lt in Hlt. congruence.
  - destruct (Qltb x y) eqn:E; [|reflexivity].
    apply Qltb_lt in E. exfalso. apply (Qlt_not_le _ _ E H).
Qed.

(** ** Slices *)

Lemma slice_to_nonneg {A} (n : Z) (l : list A) :
  0 <= n -> slice_to n l = take (Z.to_nat n) l.
Proof. intros Hn. unfold slice_to. destruct (Z.leb_spec 0 n); [reflexivity|lia]. Qed.

Lemma slice_to_prefix {A} (n : Z) (l : list A) : slice_to n l `prefix_of` l.
Proof. unfold slice_to. destruct (0 <=? n); apply prefix_take. Qed.

Lemma slice_to_length {A} (n : Z) (l : list A) :
  0 <= n -> (length (slice_to n l) <= Z.to_nat n)%nat.
Proof. intros Hn. rewrite slice_to_nonneg by done. rewrite length_take. lia. Qed.

Lemma slice_to_all {A} (n : Z) (l : list A) :
  Z.of_nat (length l) <= n -> slice_to n l = l.
Proof.
  intros Hn. rewrite slice_to_nonneg by lia. apply take_ge. lia.
Qed.

Lemma Forall_slice_to {A} (P : A -> Prop) (n : Z) (l : list A) :
  Forall P l -> Forall P (slice_to n l).
Proof.
  intros H. destruct (slice_to_prefix n l) as [k Hk].
  rewrite Hk in H. by apply Forall_app in H as [H _].
Qed.

Lemma slice_to_fmap {A B} (f : A -> B) (n : Z) (l : list A) :
  f <$> slice_to n l = slice_to n (f <$> l).
Proof.
  unfold slice_to. rewrite length_fmap. destruct (0 <=? n); apply fmap_take.
Qed.

(** ** The descending stable sort *)

Section SortFacts.
Context {A : Type} (key : A -> Q).

Lemma insert_desc_perm (x : A) (l : list A) : insert_desc key x l ≡ₚ x :: l.
Proof.
  induction l as [|y l IH]; simpl; [done|].
  destruct (Qltb (key x) (key y)); [|done].
  rewrite IH. apply Permutation_swap.
Qed.

Lemma sort_desc_perm (l : list A) : sort_desc key l ≡ₚ l.
Proof.
  induction l as [|x l IH]; simpl; [done|].
  rewrite insert_desc_perm. by rewrite IH.
Qed.

Lemma insert_desc_sorted (x : A) (l : list A) :
  sorted_desc key l -> sorted_desc key (insert_desc key x l).
Proof.
  unfold sorted_desc. induction l as [|y l IH]; intros Hs; simpl.
  - repeat constructor.
  - apply StronglySorted_inv in Hs as [Hs Hy].
    destruct (Qltb (key x) (key y)) eqn:E.
    + constructor; [by apply IH|].
      rewrite insert_desc_perm. constructor; [|done].
      apply Qltb_lt in E. by apply Qlt_le_weak.
    + apply Qltb_ge in E.
      constructor; [by constructor|].
      constructor; [done|].
      eapply Forall_impl; [exact Hy|]. simpl. intros z Hz.
      by eapply Qle_trans.
Qed.

Lemma sort_desc_sorted (l : list A) : sorted_desc key (sort_desc key l).
Proof.
  induction l as [|x l IH]; simpl; [constructor|].
  by apply insert_desc_sorted.
Qed.

Lemma sorted_desc_prefix (l k : list A) :
  l `prefix_of` k -> sorted_desc key k -> sorted_desc key l.
Proof.
  unfold sorted_desc. intros [t ->]. revert t.
  induction l as [|x l IH]; intros t Hs; simpl in *; [constructor|].
  apply StronglySorted_inv in Hs as [Hs Hx].
  constructor; [by eapply IH|].
  by apply Forall_app in Hx as [Hx _].
Qed.

Lemma Forall_sort_desc (P : A -> Prop) (l : list A) :
  Forall P l -> Forall P (sort_desc key l).
Proof. intros H. by rewrite sort_desc_perm. Qed.
End SortFacts.

(** ** Merging *)

Lemma merge_loop_snd (l : list CandidateIncident) (seen : gset string)
    (merged : list CandidateIncident) :
  snd (merge_loop (seen, merged) l) = merged ++ first_seen seen l.
Proof.
  revert seen merged. induction l as [|c l IH]; intros seen merged; simpl.
  - by rewrite app_nil_r.
  - unfold merge_loop in *. simpl. destruct (decide (incident_id c ∈ seen)).
    + apply IH.
    + rewrite IH. by rewrite <- app_assoc.
Qed.

Lemma merge_candidates_first_seen (list1 list2 : list CandidateIncident) :
  _merge_candidates list1 list2 = first_seen ∅ (list1 ++ list2).
Proof. unfold _merge_candidates. by rewrite merge_loop_snd. Qed.

Lemma ids_cons (c : CandidateIncident) (l : list CandidateIncident) :
  ids (c :: l) = {[incident_id c]} ∪ ids l.
Proof. reflexivity. Qed.

Lemma elem_of_ids (x : string) (l : list CandidateIncident) :
  x ∈ ids l <-> exists c, c ∈ l /\ incident_id c = x.
Proof.
  unfold ids. rewrite elem_of_list_to_set, list_elem_of_fmap. naive_solver.
Qed.

Lemma first_seen_app (seen : gset string) (l l' : list CandidateIncident) :
  first_seen seen (l ++ l') = first_seen seen l ++ first_seen (ids l ∪ seen) l'.
Proof.
  revert seen. induction l as [|c l IH]; intros seen; simpl.
  - f_equal. unfold ids. simpl. set_solver.
  - rewrite ids_cons. destruct (decide (incident_id c ∈ seen)).
    + rewrite IH. do 2 f_equal. set_solver.
    + rewrite IH. simpl. do 3 f_equal. set_solver.
Qed.

Lemma first_seen_sublist (seen : gset string) (l : list CandidateIncident) :
  first_seen seen l `sublist_of` l.
Proof.
  revert seen. induction l as [|c l IH]; intros seen; simpl; [done|].
  destruct (decide (incident_id c ∈ seen)).
  - by apply sublist_cons.
  - by apply sublist_skip.
Qed.

Lemma first_seen_fresh (seen : gset string) (l : list CandidateIncident) :
  Forall (fun c => incident_id c ∉ seen) (first_seen seen l).
Proof.
  revert seen. induction l as [|c l IH]; intros seen; simpl; [done|].
  destruct (decide (incident_id c ∈ seen)); [apply IH|].
  constructor; [done|].
  eapply Forall_impl; [apply IH|]. simpl. set_solver.
Qed.

Lemma first_seen_NoDup (seen : gset string) (l : list CandidateIncident) :
  NoDup (incident_id <$> first_seen seen l).
Proof.
  revert seen. induction l as [|c l IH]; intros seen; simpl; [constructor|].
  destruct (decide (incident_id c ∈ seen)); [apply IH|].
  rewrite fmap_cons. constructor; [|apply IH].
  rewrite list_elem_of_fmap. intros (y & Hy & Hin).
  pose proof (first_seen_fresh ({[incident_id c]} ∪ seen) l) as Hf.
  rewrite Forall_forall in Hf. specialize (Hf y Hin). set_solver.
Qed.

Lemma ids_first_seen (seen : gset string) (l : list CandidateIncident) :
  ids (first_seen seen l) = ids l ∖ seen.
Proof.
  revert seen. induction l as [|c l IH]; intros seen; simpl.
  - unfold ids. simpl. set_solver.
  - destruct (decide (incident_id c ∈ seen)) as [Hin|Hin].
    + rewrite IH, ids_cons. set_solver.
    + rewrite ids_cons, IH, ids_cons.
      apply set_eq. intros x.
      rewrite !elem_of_union, !elem_of_difference, !elem_of_union,
        !elem_of_singleton.
      destruct (decide (x = incident_id c)); naive_solver.
Qed.

Lemma first_seen_id (seen : gset string) (l : list CandidateIncident) :
  NoDup (incident_id <$> l) -> ids l ## seen -> first_seen seen l = l.
Proof.
  revert seen. induction l as [|c l IH]; intros seen Hnd Hdis; simpl; [done|].
  rewrite fmap_cons in Hnd. apply NoDup_cons in Hnd as [Hc Hnd].
  rewrite ids_cons in Hdis.
  destruct (decide (incident_id c ∈ seen)); [set_solver|].
  f_equal. apply IH; [done|].
  assert (incident_id c ∉ ids l).
  { unfold ids. by rewrite elem_of_list_to_set. }
  set_solver.
Qed.

Lemma first_seen_nil (seen : gset string) (l : list CandidateIncident) :
  ids l ⊆ seen -> first_seen seen l = [].
Proof.
  revert seen. induction l as [|c l IH]; intros seen Hsub; simpl; [done|].
  rewrite ids_cons in Hsub.
  destruct (decide (incident_id c ∈ seen)); [|set_solver].
  apply IH. set_solver.
Qed.



Lemma ids_app (l l' : list CandidateIncident) : ids (l ++ l') = ids l ∪ ids l'.
Proof. unfold ids. rewrite fmap_app. set_solver. Qed.

Lemma merge_candidates_split (list1 list2 : list CandidateIncident) :
  _merge_candidates list1 list2 =
  first_seen ∅ list1 ++ first_seen (ids list1 ∪ ∅) list2.
Proof. by rewrite merge_candidates_first_seen, first_seen_app. Qed.

Lemma merge_candidates_NoDup (list1 list2 : list CandidateIncident) :
  NoDup (incident_id <$> _merge_candidates list1 list2).
Proof. rewrite merge_candidates_first_seen. apply first_seen_NoDup. Qed.

Lemma merge_candidates_absorb (X l : list CandidateIncident) :
  NoDup (incident_id <$> X) -> ids l ⊆ ids X -> _merge_candidates X l = X.
Proof.
  intros Hnd Hsub. rewrite merge_candidates_split.
  rewrite first_seen_id by (done || set_solver).
  rewrite first_seen_nil by set_solver. by rewrite app_nil_r.
Qed.

Lemma ids_merge_candidates (list1 list2 : list CandidateIncident) :
  ids (_merge_candidates list1 list2) = ids list1 ∪ ids list2.
Proof.
  rewrite merge_candidates_first_seen, ids_first_seen, ids_app. set_solver.
Qed.

(** C9. Merging is idempotent on [incident_id]: a merged list carries each
    identifier at most once, and merging a list into a merge that already
    contains it changes nothing; in particular merging [A] with [A] gives
    what merging [A] once gives. *)
Theorem merge_idempotent (A B : list CandidateIncident) :
  NoDup (incident_id <$> _merge_candidates A B) /\
  _merge_candidates (_merge_candidates A B) A = _merge_candidates A B /\
  _merge_candidates (_merge_candidates A B) B = _merge_candidates A B /\
  _merge_candidates A A = _merge_candidates A [] /\
  _merge_candidates (_merge_candidates A []) A = _merge_candidates A [].
Proof.
  split; [apply merge_candidates_NoDup|].
  split; [|split; [|split]].
  - apply merge_candidates_absorb; [apply merge_candidates_NoDup|].
    rewrite ids_merge_candidates. set_solver.
  - apply merge_candidates_absorb; [apply merge_candidates_NoDup|].
    rewrite ids_merge_candidates. set_solver.
  - rewrite !merge_candidates_split.
    rewrite (first_seen_nil (ids A ∪ ∅) A) by set_solver. done.
  - apply merge_candidates_absorb; [apply merge_candidates_NoDup|].
    rewrite ids_merge_candidates. set_solver.
Qed.







(** ** Confidence classification *)

Lemma calculate_confidence_agree (settings : PatternMatchingSettings) (s : Q) :
  PatternMatchingEngine._calculate_confidence settings s =
  EnhancedPatternMatchingEngine._calculate_confidence settings s.
Proof. reflexivity. Qed.

Lemma calculate_confidence_exact (settings : PatternMatchingSettings) (s : Q) :
  EnhancedPatternMatchingEngine._calculate_confidence settings s = EXACT <->
  (exact_match_threshold settings <= s)%Q.
Proof.
  unfold EnhancedPatternMatchingEngine._calculate_confidence.
  destruct (Qleb (exact_match_threshold settings) s) eqn:E.
  - apply Qleb_le in E. by split.
  - apply Qleb_gt in E. split.
    + destruct (Qleb (partial_match_threshold settings) s); discriminate.
    + intros H. exfalso. apply (Qlt_not_le _ _ E H).
Qed.

Lemma calculate_confidence_partial (settings : PatternMatchingSettings) (s : Q) :
  EnhancedPatternMatchingEngine._calculate_confidence settings s = PARTIAL <->
  (partial_match_threshold settings <= s /\ s < exact_match_threshold settings)%Q.
Proof.
  unfold EnhancedPatternMatchingEngine._calculate_confidence.
  destruct (Qleb (exact_match_threshold settings) s) eqn:E.
  - apply Qleb_le in E. split; [discriminate|].
    intros [_ H]. exfalso. apply (Qlt_not_le _ _ H E).
  - apply Qleb_gt in E.
    destruct (Qleb (partial_match_threshold settings) s) eqn:F.
    + apply Qleb_le in F. by split.
    + apply Qleb_gt in F. split; [discriminate|].
      intros [H _]. exfalso. apply (Qlt_not_le _ _ F H).
Qed.

Lemma calculate_confidence_none (settings : PatternMatchingSettings) (s : Q) :
  EnhancedPatternMatchingEngine._calculate_confidence settings s = NONE <->
  (s < exact_match_threshold settings /\ s < partial_match_threshold settings)%Q.
Proof.
  unfold EnhancedPatternMatchingEngine._calculate_confidence.
  destruct (Qleb (exact_match_threshold settings) s) eqn:E.
  - apply Qleb_le in E. split; [discriminate|].
    intros [H _]. exfalso. apply (Qlt_not_le _ _ H E).
  - apply Qleb_gt in E.
    destruct (Qleb (partial_match_threshold settings) s) eqn:F.
    + apply Qleb_le in F. split; [discriminate|].
      intros [_ H]. exfalso. apply (Qlt_not_le _ _ H F).
    + apply Qleb_gt in F. by split.
Qed.

(** C5. With [partial_match_threshold <= exact_match_threshold] both
    classifiers are the same total function; a score is EXACT exactly when
    it is at least the exact threshold, PARTIAL exactly when it lies in
    [partial, exact), NONE exactly when it is below the partial threshold,
    and every score in [0,1] satisfies exactly one of the three range
    conditions. *)
Theorem calculate_confidence_partition
    (settings : PatternMatchingSettings) (s : Q) :
  (0 <= s <= 1)%Q ->
  (partial_match_threshold settings <= exact_match_threshold settings)%Q ->
  let e := exact_match_threshold settings in
  let p := partial_match_threshold settings in
  let tier := EnhancedPatternMatchingEngine._calculate_confidence settings s in
  PatternMatchingEngine._calculate_confidence settings s = tier /\
  (tier = EXACT <-> (e <= s)%Q) /\
  (tier = PARTIAL <-> (p <= s /\ s < e)%Q) /\
  (tier = NONE <-> (s < p)%Q) /\
  (((e <= s)%Q /\ ~ (p <= s /\ s < e)%Q /\ ~ (s < p)%Q) \/
   (~ (e <= s)%Q /\ (p <= s /\ s < e)%Q /\ ~ (s < p)%Q) \/
   (~ (e <= s)%Q /\ ~ (p <= s /\ s < e)%Q /\ (s < p)%Q)).
Proof.
  intros _ Hpe e p tier. subst e p tier.
  split; [apply calculate_confidence_agree|].
  split; [apply calculate_confidence_exact|].
  split; [apply calculate_confidence_partial|].
  split.
  - rewrite calculate_confidence_none. split; [tauto|].
    intros H. split; [|done]. eapply Qlt_le_trans; eauto.
  - destruct (Qlt_le_dec s (exact_match_threshold settings)) as [H1|H1];
      destruct (Qlt_le_dec s (partial_match_threshold settings)) as [H2|H2].
    + right; right. repeat split; [lra|lra|done].
    + right; left. repeat split; [lra|done|done|lra].
    + exfalso. lra.
    + left. repeat split; [done|lra|lra].
Qed.

Lemma calculate_confidence_partition_witness :
  EnhancedPatternMatchingEngine._calculate_confidence default_settings 0.8 = PARTIAL.
Proof.
  assert ((0 <= 0.8 <= 1)%Q) as Hs by (split; vm_compute; discriminate).
  assert ((partial_match_threshold default_settings
           <= exact_match_threshold default_settings)%Q) as Hpe
    by (vm_compute; discriminate).
  destruct (calculate_confidence_partition default_settings 0.8 Hs Hpe)
    as (_ & _ & Hp & _).
  apply Hp. split; vm_compute; [discriminate|reflexivity].
Defined.

(** ** Final score *)

(** C8. The final score is the weighted sum with weights 0.10, 0.25, 0.40
    and 0.25, which add up to 1, and it is monotone in each stage score:
    raising stage scores (one of them, the others equal, or several at
    once) never lowers it. *)
Theorem final_score_weighted_monotone :
  (0.10 + 0.25 + 0.40 + 0.25 == 1)%Q /\
  (forall c : CandidateIncident,
     (_calculate_final_score c ==
      0.10 * bm25_score c + 0.25 * bi_encoder_score c +
      0.40 * colbert_score c + 0.25 * cross_encoder_score c)%Q) /\
  (forall c c' : CandidateIncident,
     (bm25_score c <= bm25_score c')%Q ->
     (bi_encoder_score c <= bi_encoder_score c')%Q ->
     (colbert_score c <= colbert_score c')%Q ->
     (cross_encoder_score c <= cross_encoder_score c')%Q ->
     (_calculate_final_score c <= _calculate_final_score c')%Q) /\
  (forall (c : CandidateIncident) (v : Q),
     (colbert_score c <= v)%Q ->
     (_calculate_final_score c <= _calculate_final_score (set_colbert_score v c))%Q) /\
  (forall (c : CandidateIncident) (v : Q),
     (cross_encoder_score c <= v)%Q ->
     (_calculate_final_score c
      <= _calculate_final_score (set_cross_encoder_score v c))%Q).
Proof.
  split; [reflexivity|]. split; [intros c; reflexivity|].
  unfold _calculate_final_score. split; [|split].
  - intros c c' H1 H2 H3 H4. lra.
  - intros c v H. simpl. lra.
  - intros c v H. simpl. lra.
Qed.

(** ** Derived views of a pipeline result *)

Lemma elem_of_exact_matches (r : PipelineResult) (m : CandidateIncident) :
  m ∈ exact_matches r <-> m ∈ matches r /\ (0.92 <= final_score m)%Q.
Proof.
  unfold exact_matches. rewrite list_elem_of_filter, Qleb_le. tauto.
Qed.

Lemma elem_of_partial_matches (r : PipelineResult) (m : CandidateIncident) :
  m ∈ partial_matches r <->
  m ∈ matches r /\ (0.70 <= final_score m /\ final_score m < 0.92)%Q.
Proof.
  unfold partial_matches.
  rewrite list_elem_of_filter, andb_true_iff, Qleb_le, Qltb_lt. tauto.
Qed.

Lemma tiers_disagree_off_defaults (settings : PatternMatchingSettings) :
  ~ ((exact_match_threshold settings == 0.92)%Q /\
     (partial_match_threshold settings == 0.70)%Q) ->
  exists s : Q,
    ~ ((EnhancedPatternMatchingEngine._calculate_confidence settings s = EXACT
        <-> (0.92 <= s)%Q) /\
       (EnhancedPatternMatchingEngine._calculate_confidence settings s = PARTIAL
        <-> (0.70 <= s /\ s < 0.92)%Q)).
Proof.
  intros Hne.
  destruct (Q_dec (exact_match_threshold settings) 0.92) as [[He|He]|He].
  - exists (exact_match_threshold settings). intros [[H _] _].
    apply (Qlt_not_le _ _ He), H, calculate_confidence_exact, Qle_refl.
  - exists 0.92%Q. intros [[_ H] _].
    specialize (H (Qle_refl _)). apply calculate_confidence_exact in H.
    apply (Qlt_not_le _ _ He H).
  - destruct (Q_dec (partial_match_threshold settings) 0.70) as [[Hp|Hp]|Hp].
    + exists (partial_match_threshold settings). intros [_ [H _]].
      destruct H as [H _].
      * apply calculate_confidence_partial. split; [apply Qle_refl|].
        rewrite He. eapply Qlt_trans; [exact Hp|reflexivity].
      * apply (Qlt_not_le _ _ Hp H).
    + exists 0.70%Q. intros [_ [_ H]].
      destruct (proj1 (calculate_confidence_partial settings 0.70)) as [H1 _].
      * apply H. split; [apply Qle_refl|reflexivity].
      * apply (Qlt_not_le _ _ Hp H1).
    + exfalso. apply Hne. by split.
Qed.

(** C10. [exact_matches] and [partial_matches] select by the constants
    0.92 and 0.70 of the result type and take no settings; they are
    disjoint; and they can disagree with the configured tiers: whenever
    the configured exact threshold differs from 0.92 some score is EXACT
    for one and not for the other, and whenever the configured exact or
    partial threshold differs from 0.92 and 0.70 some result has a match
    whose view differs from its tier. *)
Theorem result_views_fixed_constants :
  (forall r m, m ∈ exact_matches r <->
               m ∈ matches r /\ (0.92 <= final_score m)%Q) /\
  (forall r m, m ∈ partial_matches r <->
               m ∈ matches r /\ (0.70 <= final_score m /\ final_score m < 0.92)%Q) /\
  (forall r m, ~ (m ∈ exact_matches r /\ m ∈ partial_matches r)) /\
  (forall settings : PatternMatchingSettings,
     ~ (exact_match_threshold settings == 0.92)%Q ->
     exists s : Q,
       ~ (EnhancedPatternMatchingEngine._calculate_confidence settings s = EXACT
          <-> (0.92 <= s)%Q)) /\
  (exists (settings : PatternMatchingSettings) (r : PipelineResult)
          (m : CandidateIncident),
     PatternMatchingSettings_init 0.80 0.50 0.50 = Ok settings /\
     m ∈ matches r /\
     EnhancedPatternMatchingEngine._calculate_confidence settings (final_score m)
       = EXACT /\
     (m ∉ exact_matches r) /\ (m ∈ partial_matches r)) /\
  (forall settings : PatternMatchingSettings,
     ~ ((exact_match_threshold settings == 0.92)%Q /\
        (partial_match_threshold settings == 0.70)%Q) ->
     exists (r : PipelineResult) (m : CandidateIncident),
       m ∈ matches r /\
       ~ ((m ∈ exact_matches r <->
           EnhancedPatternMatchingEngine._calculate_confidence
             settings (final_score m) = EXACT) /\
          (m ∈ partial_matches r <->
           EnhancedPatternMatchingEngine._calculate_confidence
             settings (final_score m) = PARTIAL))).
Proof.
  split; [apply elem_of_exact_matches|].
  split; [apply elem_of_partial_matches|].
  split; [|split; [|split]].
  - intros r m [H1 H2].
    apply elem_of_exact_matches in H1 as [_ H1].
    apply elem_of_partial_matches in H2 as [_ [_ H2]].
    apply (Qlt_not_le _ _ H2 H1).
  - intros settings Hne.
    destruct (Qlt_le_dec (exact_match_threshold settings) 0.92) as [Hlt|Hge].
    + exists (exact_match_threshold settings). intros [H _].
      apply (Qlt_not_le _ _ Hlt). apply H.
      apply calculate_confidence_exact. apply Qle_refl.
    + exists 0.92%Q. intros [_ H].
      specialize (H (Qle_refl _)).
      apply calculate_confidence_exact in H.
      apply Hne. by apply Qle_antisym.
  - exists (mkSettings 0.80 0.50 0.50).
    exists (mkResult [mkCandidate "INC-1" "" ∅ 0 0 0 0 0.85 []] []).
    exists (mkCandidate "INC-1" "" ∅ 0 0 0 0 0.85 []).
    split; [reflexivity|]. split; [apply list_elem_of_here|].
    split; [reflexivity|]. split.
    + rewrite elem_of_exact_matches. intros [_ H]. vm_compute in H. by apply H.
    + rewrite elem_of_partial_matches. split; [apply list_elem_of_here|].
      split; vm_compute; [discriminate|reflexivity].
  - intros settings Hne.
    destruct (tiers_disagree_off_defaults settings Hne) as [s Hs].
    exists (mkResult [mkCandidate "INC-1" "" ∅ 0 0 0 0 s []] []).
    exists (mkCandidate "INC-1" "" ∅ 0 0 0 0 s []).
    split; [apply list_elem_of_here|].
    rewrite elem_of_exact_matches, elem_of_partial_matches. simpl.
    intros [H1 H2]. apply Hs. split.
    + rewrite <- H1. split; [by intros [_ H]|].
      intros H. split; [apply list_elem_of_here|done].
    + rewrite <- H2. split; [by intros [_ H]|].
      intros H. split; [apply list_elem_of_here|done].
Qed.

(** ** Threshold validation *)

Lemma threshold_in_range_iff (v : Q) :
  threshold_in_range v = true <-> (0 <= v <= 1)%Q.
Proof.
  unfold threshold_in_range. rewrite andb_true_iff, !Qleb_le. tauto.
Qed.

Lemma settings_init_cases (exact partial min : Q) :
  PatternMatchingSettings_init exact partial min =
  if threshold_in_range exact && threshold_in_range partial
     && threshold_in_range min
  then Ok (mkSettings exact partial min)
  else Raise (ValidationError
    ((if threshold_in_range exact then [] else ["exact_match_threshold"%string]) ++
     (if threshold_in_range partial then [] else ["partial_match_threshold"%string]) ++
     (if threshold_in_range min then [] else ["min_match_threshold"%string]))).
Proof.
  unfold PatternMatchingSettings_init, failing_fields, validate_thresholds.
  simpl.
  destruct (threshold_in_range exact), (threshold_in_range partial),
    (threshold_in_range min); reflexivity.
Qed.

(** C6 (as the code has it). Construction checks each threshold on its
    own: it succeeds exactly when the exact, partial and minimum
    thresholds all lie in [0,1], and raises a validation error otherwise.
    The order of the partial and exact thresholds is not checked; under
    accepted settings with the partial threshold above the exact one the
    classifier is still total and simply never answers PARTIAL. *)
Theorem thresholds_validated_in_range (exact partial min : Q) :
  (((0 <= exact <= 1) /\ (0 <= partial <= 1) /\ (0 <= min <= 1))%Q <->
   PatternMatchingSettings_init exact partial min
   = Ok (mkSettings exact partial min)) /\
  (~ ((0 <= exact <= 1) /\ (0 <= partial <= 1) /\ (0 <= min <= 1))%Q <->
   exists fields, fields <> [] /\
     PatternMatchingSettings_init exact partial min
     = Raise (ValidationError fields)) /\
  (forall s : Q,
     (exact < partial)%Q ->
     EnhancedPatternMatchingEngine._calculate_confidence
       (mkSettings exact partial min) s <> PARTIAL).
Proof.
  rewrite settings_init_cases.
  rewrite <- !threshold_in_range_iff.
  split; [|split].
  - destruct (threshold_in_range exact), (threshold_in_range partial),
      (threshold_in_range min); simpl; split; try done; intuition discriminate.
  - destruct (threshold_in_range exact), (threshold_in_range partial),
      (threshold_in_range min); simpl; split;
      try (intros H; exfalso; apply H; done);
      try (intros (f & _ & H); discriminate);
      try (intros _; eexists; split; [|reflexivity]; discriminate);
      intros _ (H1 & H2 & H3); discriminate.
  - intros s Hlt H. apply calculate_confidence_partial in H. simpl in H.
    destruct H as [H1 H2]. lra.
Qed.

(** C6 as stated fails: the partial threshold 0.8 lies above the exact
    threshold 0.5, and construction raises nothing. *)
Lemma inverted_thresholds_accepted :
  (0.5 < 0.8)%Q /\
  ~ exists e : exn, PatternMatchingSettings_init 0.5 0.8 0.5 = Raise e.
Proof.
  split; [reflexivity|]. intros [e H]. vm_compute in H. discriminate.
Qed.

(** ** The stages and the orchestrator *)

Lemma omapM_Ok {A B} (f : A -> outcome B) (l : list A) (l' : list B) :
  omapM f l = Ok l' -> Forall2 (fun a b => f a = Ok b) l l'.
Proof.
  revert l'. induction l as [|a l IH]; intros l' H; simpl in H.
  - by simplify_eq.
  - destruct (f a) as [b|e] eqn:Ea; simpl in H; [|discriminate].
    destruct (omapM f l) as [bs|e] eqn:El; simpl in H; [|discriminate].
    simplify_eq. constructor; [done|by apply IH].
Qed.

Section PipelineFacts.
Context {Embedding : Type} (svc : Services Embedding).

Lemma query_filter_Ok (filters : option (gmap string string))
    (f : option (gmap string string)) :
  query_filter filters = Ok f -> filters_truthy filters = false /\ f = None.
Proof.
  unfold query_filter. destruct (filters_truthy filters); [discriminate|].
  intros H. by simplify_eq.
Qed.

Lemma BM25FilterStage_search_Ok query filters limit cands m :
  BM25FilterStage_search svc query filters limit = Ok (cands, m) ->
  exists hits,
    filters_truthy filters = false /\
    qdrant_search_text svc "incidents_bm25" query limit = Ok hits /\
    cands = map bm25_candidate hits /\
    m = mkMetrics BM25_FILTER (length cands) (length cands).
Proof.
  unfold BM25FilterStage_search. intros H.
  destruct (query_filter filters) as [f|e] eqn:Ef; simpl in H; [|discriminate].
  apply query_filter_Ok in Ef as [Ef _].
  destruct (qdrant_search_text svc _ query limit) as [hits|e] eqn:Eh;
    simpl in H; [|discriminate].
  simplify_eq. by exists hits.
Qed.

Lemma BiEncoderStage_search_Ok query filters limit cands m :
  BiEncoderStage_search svc query filters limit = Ok (cands, m) ->
  exists q_emb hits,
    embed svc query = Ok q_emb /\
    filters_truthy filters = false /\
    qdrant_search_vector svc "incidents_summary" q_emb limit = Ok hits /\
    cands = map bi_encoder_candidate hits /\
    m = mkMetrics BI_ENCODER (length cands) (length cands).
Proof.
  unfold BiEncoderStage_search. intros H.
  destruct (embed svc query) as [q_emb|e] eqn:Eq; simpl in H; [|discriminate].
  destruct (query_filter filters) as [f|e] eqn:Ef; simpl in H; [|discriminate].
  apply query_filter_Ok in Ef as [Ef _].
  destruct (qdrant_search_vector svc _ q_emb limit) as [hits|e] eqn:Eh;
    simpl in H; [|discriminate].
  simplify_eq. by exists q_emb, hits.
Qed.

Lemma search_Ok_inv self query filters limit r :
  search svc self query filters limit = Ok r ->
  exists bm25_candidates bm25_metrics bi_encoder_candidates bi_metrics
         colbert_candidates colbert_metrics final_candidates cross_metrics,
    BM25FilterStage_search svc query filters 100
      = Ok (bm25_candidates, bm25_metrics) /\
    BiEncoderStage_search svc query filters 50
      = Ok (bi_encoder_candidates, bi_metrics) /\
    ColBERTStage_score svc (colbert self) query
      (_merge_candidates bm25_candidates bi_encoder_candidates) 20
      = Ok (colbert_candidates, colbert_metrics) /\
    CrossEncoderStage_rerank (cross_encoder self) query colbert_candidates limit
      = Ok (final_candidates, cross_metrics) /\
    r = mkResult (map (finalize query) final_candidates)
          [bm25_metrics; bi_metrics; colbert_metrics; cross_metrics].
Proof.
  unfold search. intros H.
  destruct (BM25FilterStage_search svc query filters 100)
    as [[bm bmm]|e] eqn:E1; simpl in H; [|discriminate].
  destruct (BiEncoderStage_search svc query filters 50)
    as [[bi bim]|e] eqn:E2; simpl in H; [|discriminate].
  destruct (ColBERTStage_score svc (colbert self) query _ 20)
    as [[cc cm]|e] eqn:E3; simpl in H; [|discriminate].
  destruct (CrossEncoderStage_rerank (cross_encoder self) query cc limit)
    as [[fc xm]|e] eqn:E4; simpl in H; [|discriminate].
  simplify_eq. by exists bm, bmm, bi, bim, cc, cm, fc, xm.
Qed.
End PipelineFacts.

Lemma Forall_first_seen (P : CandidateIncident -> Prop) (seen : gset string)
    (l : list CandidateIncident) :
  Forall P l -> Forall P (first_seen seen l).
Proof.
  revert seen. induction l as [|c l IH]; intros seen H; simpl; [done|].
  apply Forall_cons in H as [Hc H].
  destruct (decide (incident_id c ∈ seen)); [by apply IH|].
  constructor; [done|by apply IH].
Qed.

Lemma Forall_merge_candidates (P : CandidateIncident -> Prop)
    (list1 list2 : list CandidateIncident) :
  Forall P list1 -> Forall P list2 -> Forall P (_merge_candidates list1 list2).
Proof.
  intros H1 H2. rewrite merge_candidates_first_seen.
  apply Forall_first_seen. by apply Forall_app.
Qed.

Lemma Forall_imap {A B} (P : A -> Prop) (R : B -> Prop) (f : nat -> A -> B)
    (l : list A) :
  (forall i a, P a -> R (f i a)) -> Forall P l -> Forall R (imap f l).
Proof.
  revert f. induction l as [|a l IH]; intros f Hf H; simpl; [done|].
  apply Forall_cons in H as [Ha H].
  constructor; [by apply Hf|]. apply IH; [|done].
  intros i b. apply Hf.
Qed.

Lemma sorted_desc_map {A} (key : A -> Q) (f : A -> A) (l : list A) :
  (forall a, key (f a) = key a) ->
  sorted_desc key l -> sorted_desc key (map f l).
Proof.
  intros Hf. unfold sorted_desc. induction 1 as [|a l Hs IH Ha]; simpl.
  - constructor.
  - constructor; [done|]. apply Forall_fmap.
    eapply Forall_impl; [exact Ha|]. simpl. intros b Hb. by rewrite !Hf.
Qed.

Section StageFacts.
Context {Embedding : Type} (svc : Services Embedding).

Lemma colbert_rescore_Ok query c c' :
  colbert_rescore svc query c = Ok c' ->
  exists v, c' = set_colbert_score v c.
Proof.
  unfold colbert_rescore. intros H.
  destruct (embed svc query) as [q|e]; simpl in H; [|discriminate].
  destruct (embed svc (detail_text c)) as [d|e]; simpl in H; [|discriminate].
  simplify_eq. eauto.
Qed.

(** Whatever the late-interaction stage returns was built from its
    input by assigning [colbert_score] only. *)
Lemma ColBERTStage_score_Forall (P : CandidateIncident -> Prop)
    self query candidates limit out m :
  (forall v c, P c -> P (set_colbert_score v c)) ->
  Forall P candidates ->
  ColBERTStage_score svc self query candidates limit = Ok (out, m) ->
  Forall P out.
Proof.
  intros HP Hc. unfold ColBERTStage_score.
  destruct (colbert_enabled self); simpl; intros H.
  - destruct (omapM _ _) as [scored|e] eqn:Es; simpl in H; [|discriminate].
    simplify_eq. apply Forall_slice_to, Forall_sort_desc.
    apply omapM_Ok in Es.
    assert (Forall P (slice_to 50 candidates)) as Hs by by apply Forall_slice_to.
    clear Hc. induction Es as [|a b l l' Hab _ IH]; [done|].
    apply Forall_cons in Hs as [Ha Hs].
    constructor; [|by apply IH].
    apply colbert_rescore_Ok in Hab as [v ->]. by apply HP.
  - simplify_eq. apply Forall_fmap.
    eapply Forall_impl; [exact Hc|]. simpl. intros c Hc'. by apply HP.
Qed.

Lemma ColBERTStage_score_sorted self query candidates limit out m :
  colbert_enabled self = true ->
  ColBERTStage_score svc self query candidates limit = Ok (out, m) ->
  sorted_desc colbert_score out.
Proof.
  intros He. unfold ColBERTStage_score. rewrite He. simpl. intros H.
  destruct (omapM _ _) as [scored|e]; simpl in H; [|discriminate].
  simplify_eq.
  eapply sorted_desc_prefix; [apply slice_to_prefix|apply sort_desc_sorted].
Qed.
End StageFacts.

Lemma rerank_disabled_iff (self : CrossEncoderStage) :
  rerank_disabled self = true <-> enabled self = false \/ model self = None.
Proof.
  unfold rerank_disabled. rewrite orb_true_iff, !negb_true_iff.
  rewrite bool_decide_eq_false, <- eq_None_not_Some. tauto.
Qed.

Lemma CrossEncoderStage_rerank_disabled self query candidates limit :
  rerank_disabled self = true ->
  CrossEncoderStage_rerank self query candidates limit
  = Ok (slice_to limit candidates,
        mkMetrics CROSS_ENCODER (length candidates)
                  (length (slice_to limit candidates))).
Proof. intros H. unfold CrossEncoderStage_rerank. by rewrite H. Qed.

Lemma CrossEncoderStage_rerank_sorted self query candidates limit out m :
  rerank_disabled self = false ->
  CrossEncoderStage_rerank self query candidates limit = Ok (out, m) ->
  sorted_desc cross_encoder_score out.
Proof.
  intros H. unfold CrossEncoderStage_rerank. rewrite H. intros Ho.
  simplify_eq.
  eapply sorted_desc_prefix; [apply slice_to_prefix|apply sort_desc_sorted].
Qed.

Lemma CrossEncoderStage_rerank_length self query candidates limit out m :
  0 <= limit ->
  CrossEncoderStage_rerank self query candidates limit = Ok (out, m) ->
  (length out <= Z.to_nat limit)%nat.
Proof.
  intros Hl. unfold CrossEncoderStage_rerank.
  destruct (rerank_disabled self); intros H; simplify_eq;
    by apply slice_to_length.
Qed.

Lemma finalize_scores (query : string) (c : CandidateIncident) :
  final_score (finalize query c) = _calculate_final_score (finalize query c) /\
  colbert_score (finalize query c) = colbert_score c /\
  cross_encoder_score (finalize query c) = cross_encoder_score c /\
  incident_id (finalize query c) = incident_id c.
Proof. by repeat split. Qed.

Lemma ids_finalize_slice (query : string) (n : Z)
    (g : CandidateIncident -> CandidateIncident) (l : list CandidateIncident) :
  (forall c, incident_id (g c) = incident_id c) ->
  incident_id <$> map (finalize query) (slice_to n (map g l))
  = slice_to n (incident_id <$> l).
Proof.
  intros Hg.
  change (incident_id <$> (finalize query <$> slice_to n (g <$> l))
          = slice_to n (incident_id <$> l)).
  rewrite <- list_fmap_compose, slice_to_fmap, <- list_fmap_compose.
  f_equal. apply list_fmap_ext. intros i c _. simpl. apply Hg.
Qed.

(** C3 (as the code has it). A disabled re-ranking stage (switched off,
    or without a model) returns the slice [candidates[:limit]] of its
    input, the candidates themselves unchanged and in input order; it
    assigns no re-rank score, so in a pipeline run every match keeps the
    re-rank score 0 it was created with. *)
Theorem rerank_disabled_passthrough
    (self : CrossEncoderStage) (query : string)
    (candidates : list CandidateIncident) (limit : Z) :
  enabled self = false \/ model self = None ->
  CrossEncoderStage_rerank self query candidates limit
  = Ok (slice_to limit candidates,
        mkMetrics CROSS_ENCODER (length candidates)
                  (length (slice_to limit candidates))) /\
  slice_to limit candidates `prefix_of` candidates /\
  (0 <= limit -> slice_to limit candidates = take (Z.to_nat limit) candidates) /\
  (forall (Embedding : Type) (svc : Services Embedding) (stage3 : ColBERTStage)
          (filters : option (gmap string string)) (r : PipelineResult),
     search svc (mkPipeline stage3 self) query filters limit = Ok r ->
     Forall (fun m => cross_encoder_score m = 0%Q) (matches r)).
Proof.
  intros Hoff. apply rerank_disabled_iff in Hoff.
  split; [by apply CrossEncoderStage_rerank_disabled|].
  split; [apply slice_to_prefix|].
  split; [apply slice_to_nonneg|].
  intros Embedding svc stage3 filters r Hr.
  apply search_Ok_inv in Hr
    as (bm & bmm & bi & bim & cc & cm & fc & xm & H1 & H2 & H3 & H4 & ->).
  simpl in *.
  apply BM25FilterStage_search_Ok in H1 as (hits1 & _ & _ & -> & _).
  apply BiEncoderStage_search_Ok in H2 as (qe & hits2 & _ & _ & _ & -> & _).
  rewrite CrossEncoderStage_rerank_disabled in H4 by done. simplify_eq.
  apply Forall_fmap. apply Forall_slice_to.
  apply Forall_impl with (P := fun c => cross_encoder_score c = 0%Q); [|done].
  eapply (ColBERTStage_score_Forall svc); [done| |exact H3].
  apply Forall_merge_candidates; apply Forall_fmap, Forall_forall; done.
Qed.

Lemma rerank_disabled_passthrough_witness :
  CrossEncoderStage_rerank (mkCrossEncoder None false 20) Scenario.query
    Scenario.scored_candidates 5
  = Ok (Scenario.scored_candidates, mkMetrics CROSS_ENCODER 2 2).
Proof.
  destruct (rerank_disabled_passthrough (mkCrossEncoder None false 20)
              Scenario.query Scenario.scored_candidates 5) as (H & _).
  - left. reflexivity.
  - rewrite H. reflexivity.
Defined.

(** C3 as stated fails: with the stage disabled the returned INC-1 has
    late-interaction score 0.93 and re-rank score 0. *)
Lemma rerank_disabled_no_rerank_score :
  ~ forall out m,
      CrossEncoderStage_rerank (mkCrossEncoder None false 20) Scenario.query
        Scenario.scored_candidates 5 = Ok (out, m) ->
      Forall (fun c => (cross_encoder_score c == colbert_score c)%Q) out.
Proof.
  intros H. specialize (H _ _ eq_refl).
  apply Forall_cons in H as [H _]. vm_compute in H. discriminate.
Qed.

(** C4 (as the code has it). The matches of a completed run are the
    output of the re-ranking stage, finalized one by one in that stage's
    order, at most [limit] of them, each with [final_score] set to the
    weighted sum of its stage scores.  They are not sorted by
    [final_score]: with re-ranking disabled they are the first [limit]
    candidates of the late-interaction stage, in descending order of the
    late-interaction score when that stage is enabled and in merge order
    when it is disabled too; with re-ranking enabled they are in
    descending order of the re-rank score. *)
Theorem search_order_is_stage_order
    {Embedding : Type} (svc : Services Embedding)
    (self : HybridRetrievalPipeline) (query : string)
    (filters : option (gmap string string)) (limit : Z) (r : PipelineResult) :
  search svc self query filters limit = Ok r ->
  Forall (fun m => final_score m = _calculate_final_score m) (matches r) /\
  (0 <= limit -> (length (matches r) <= Z.to_nat limit)%nat) /\
  (rerank_disabled (cross_encoder self) = true ->
   colbert_enabled (colbert self) = true ->
   sorted_desc colbert_score (matches r)) /\
  (rerank_disabled (cross_encoder self) = false ->
   sorted_desc cross_encoder_score (matches r)) /\
  exists (kw : list ScoredPoint) (qe : Embedding) (sem : list ScoredPoint)
         (colbert_candidates final_candidates : list CandidateIncident)
         (colbert_metrics cross_metrics : RetrievalMetrics),
    qdrant_search_text svc "incidents_bm25" query 100 = Ok kw /\
    embed svc query = Ok qe /\
    qdrant_search_vector svc "incidents_summary" qe 50 = Ok sem /\
    ColBERTStage_score svc (colbert self) query
      (_merge_candidates (map bm25_candidate kw) (map bi_encoder_candidate sem))
      20 = Ok (colbert_candidates, colbert_metrics) /\
    CrossEncoderStage_rerank (cross_encoder self) query colbert_candidates limit
      = Ok (final_candidates, cross_metrics) /\
    matches r = map (finalize query) final_candidates /\
    incident_id <$> matches r = incident_id <$> final_candidates /\
    (rerank_disabled (cross_encoder self) = true ->
     matches r = map (finalize query) (slice_to limit colbert_candidates)) /\
    (rerank_disabled (cross_encoder self) = false ->
     matches r
     = map (finalize query)
         (slice_to limit
            (sort_desc cross_encoder_score
               (imap (fun i c =>
                        set_cross_encoder_score (placeholder_score i c) c)
                  (slice_to (top_k (cross_encoder self)) colbert_candidates))))) /\
    (rerank_disabled (cross_encoder self) = true ->
     colbert_enabled (colbert self) = false ->
     incident_id <$> matches r
     = slice_to limit
         (incident_id <$> _merge_candidates (map bm25_candidate kw)
                                            (map bi_encoder_candidate sem))).
Proof.
  intros Hr.
  apply search_Ok_inv in Hr
    as (bm & bmm & bi & bim & cc & cm & fc & xm & H1 & H2 & H3 & H4 & ->).
  simpl. split; [|split; [|split; [|split]]].
  - apply Forall_fmap, Forall_forall. intros c _. apply finalize_scores.
  - intros Hl. rewrite length_map.
    by eapply CrossEncoderStage_rerank_length.
  - intros Hoff Hon.
    rewrite CrossEncoderStage_rerank_disabled in H4 by done. simplify_eq.
    apply sorted_desc_map; [intros c; apply finalize_scores|].
    eapply sorted_desc_prefix; [apply slice_to_prefix|].
    by eapply ColBERTStage_score_sorted.
  - intros Hon.
    apply sorted_desc_map; [intros c; apply finalize_scores|].
    by eapply CrossEncoderStage_rerank_sorted.
  - apply BM25FilterStage_search_Ok in H1 as (kw & _ & Hkw & -> & _).
    apply BiEncoderStage_search_Ok in H2 as (qe & sem & Hq & _ & Hsem & -> & _).
    exists kw, qe, sem, cc, fc, cm, xm.
    split; [done|]. split; [done|]. split; [done|]. split; [done|].
    split; [done|]. split; [done|]. split.
    { change (incident_id <$> (finalize query <$> fc) = incident_id <$> fc).
      by rewrite <- list_fmap_compose. }
    split.
    { intros Hoff.
      rewrite CrossEncoderStage_rerank_disabled in H4 by done. by simplify_eq. }
    split.
    { intros Hon. unfold CrossEncoderStage_rerank in H4. rewrite Hon in H4.
      by simplify_eq. }
    intros Hoff Hcoff.
    rewrite CrossEncoderStage_rerank_disabled in H4 by done.
    unfold ColBERTStage_score in H3. rewrite Hcoff in H3. simpl in H3.
    simplify_eq. by apply ids_finalize_slice.
Qed.

Lemma search_order_is_stage_order_witness :
  exists r : PipelineResult,
    Scenario.run = Ok r /\ sorted_desc colbert_score (matches r).
Proof.
  destruct Scenario.run as [r|e] eqn:Hr; [|vm_compute in Hr; discriminate].
  exists r. split; [reflexivity|].
  destruct (search_order_is_stage_order Scenario.svc Scenario.pipeline
              Scenario.query None 5 r Hr) as (_ & _ & Hsorted & _).
  apply Hsorted; reflexivity.
Defined.

(** C4 as stated fails: the scenario run returns INC-1 with final score
    0.432 before INC-2 with final score 0.5. *)
Lemma search_not_sorted_by_final_score :
  exists r : PipelineResult,
    Scenario.run = Ok r /\
    incident_id <$> matches r = ["INC-1"%string; "INC-2"%string] /\
    Forall2 Qeq (final_score <$> matches r) [0.432%Q; 0.5%Q] /\
    ~ sorted_desc final_score (matches r).
Proof.
  destruct Scenario.run as [r|e] eqn:Hr; [|vm_compute in Hr; discriminate].
  exists r. split; [reflexivity|].
  vm_compute in Hr. simplify_eq. simpl.
  split; [reflexivity|]. split; [by repeat constructor|].
  intros Hs. apply StronglySorted_inv in Hs as [_ Hs].
  apply Forall_cons in Hs as [Hs _]. vm_compute in Hs. by apply Hs.
Qed.

(** C7 (as the code has it). The keyword stage awaits the index without
    catching anything: it raises exactly when the index call raises, with
    the same exception, and then so does the pipeline run.  When the
    index answers, the stage returns one candidate per hit with
    [candidates_out] the number of hits; so it returns the empty
    candidate list, and [candidates_out = 0], only when the index
    answered with no hits, after which the run goes on with the semantic
    stage's candidates alone.  A run completes only if the index
    answered. *)
Theorem keyword_failure_propagates
    {Embedding : Type} (svc : Services Embedding)
    (self : HybridRetrievalPipeline) (query : string)
    (filters : option (gmap string string)) (limit : Z) :
  filters_truthy filters = false ->
  (forall e lim,
     qdrant_search_text svc "incidents_bm25" query lim = Raise e ->
     BM25FilterStage_search svc query filters lim = Raise e) /\
  (forall e,
     qdrant_search_text svc "incidents_bm25" query 100 = Raise e ->
     search svc self query filters limit = Raise e) /\
  (forall lim,
     qdrant_search_text svc "incidents_bm25" query lim = Ok [] ->
     BM25FilterStage_search svc query filters lim
     = Ok ([], mkMetrics BM25_FILTER 0 0)) /\
  (qdrant_search_text svc "incidents_bm25" query 100 = Ok [] ->
   search svc self query filters limit =
   '(bi_encoder_candidates, bi_metrics) ← BiEncoderStage_search svc query filters 50;
   '(colbert_candidates, colbert_metrics) ←
       ColBERTStage_score svc (colbert self) query
         (_merge_candidates [] bi_encoder_candidates) 20;
   '(final_candidates, cross_metrics) ←
       CrossEncoderStage_rerank (cross_encoder self) query colbert_candidates limit;
   Ok (mkResult (map (finalize query) final_candidates)
         [mkMetrics BM25_FILTER 0 0; bi_metrics; colbert_metrics; cross_metrics])) /\
  (forall lim hits,
     qdrant_search_text svc "incidents_bm25" query lim = Ok hits ->
     BM25FilterStage_search svc query filters lim
     = Ok (map bm25_candidate hits,
           mkMetrics BM25_FILTER (length hits) (length hits))) /\
  (forall lim candidates m,
     BM25FilterStage_search svc query filters lim = Ok (candidates, m) ->
     exists hits,
       qdrant_search_text svc "incidents_bm25" query lim = Ok hits /\
       candidates = map bm25_candidate hits /\
       m = mkMetrics BM25_FILTER (length hits) (length hits)) /\
  (forall lim m,
     BM25FilterStage_search svc query filters lim = Ok ([], m) ->
     qdrant_search_text svc "incidents_bm25" query lim = Ok [] /\
     m = mkMetrics BM25_FILTER 0 0) /\
  (forall lim candidates m,
     BM25FilterStage_search svc query filters lim = Ok (candidates, m) ->
     (candidates_out m = 0%nat <->
      qdrant_search_text svc "incidents_bm25" query lim = Ok [])) /\
  (forall lim e,
     BM25FilterStage_search svc query filters lim = Raise e <->
     qdrant_search_text svc "incidents_bm25" query lim = Raise e) /\
  (forall r,
     search svc self query filters limit = Ok r ->
     exists hits, qdrant_search_text svc "incidents_bm25" query 100 = Ok hits).
Proof.
  intros Hf.
  assert (forall lim,
            BM25FilterStage_search svc query filters lim =
            match qdrant_search_text svc "incidents_bm25" query lim with
            | Ok hits => Ok (map bm25_candidate hits,
                             mkMetrics BM25_FILTER (length hits) (length hits))
            | Raise e => Raise e
            end) as Hstage.
  { intros lim. unfold BM25FilterStage_search, query_filter.
    rewrite Hf. simpl.
    destruct (qdrant_search_text svc "incidents_bm25" query lim) as [hits|e];
      simpl; [|done].
    by rewrite length_map. }
  assert (forall e lim,
            qdrant_search_text svc "incidents_bm25" query lim = Raise e ->
            BM25FilterStage_search svc query filters lim = Raise e) as Hraise.
  { intros e lim He. by rewrite Hstage, He. }
  assert (forall lim,
            qdrant_search_text svc "incidents_bm25" query lim = Ok [] ->
            BM25FilterStage_search svc query filters lim
            = Ok ([], mkMetrics BM25_FILTER 0 0)) as Hempty.
  { intros lim He. by rewrite Hstage, He. }
  assert (forall lim candidates m,
            BM25FilterStage_search svc query filters lim = Ok (candidates, m) ->
            exists hits,
              qdrant_search_text svc "incidents_bm25" query lim = Ok hits /\
              candidates = map bm25_candidate hits /\
              m = mkMetrics BM25_FILTER (length hits) (length hits)) as Hinv.
  { intros lim candidates m H. rewrite Hstage in H.
    destruct (qdrant_search_text svc "incidents_bm25" query lim) as [hits|e];
      [|discriminate].
    simplify_eq. by exists hits. }
  split; [exact Hraise|]. split.
  { intros e He. unfold search. rewrite (Hraise e 100 He). reflexivity. }
  split; [exact Hempty|]. split.
  { intros He. unfold search. rewrite (Hempty 100 He). reflexivity. }
  split.
  { intros lim hits He. by rewrite Hstage, He. }
  split; [exact Hinv|]. split.
  { intros lim m H. apply Hinv in H as (hits & Hh & Hc & ->).
    destruct hits; [done|discriminate]. }
  split.
  { intros lim candidates m H. apply Hinv in H as (hits & Hh & Hc & ->).
    simpl. rewrite Hh. split.
    - intros H0. by destruct hits.
    - intros H0. by simplify_eq. }
  split.
  { intros lim e. rewrite Hstage.
    destruct (qdrant_search_text svc "incidents_bm25" query lim); naive_solver. }
  intros r Hr.
  apply search_Ok_inv in Hr
    as (bm & bmm & bi & bim & cc & cm & fc & xm & H1 & _).
  apply Hinv in H1 as (hits & Hh & _). by exists hits.
Qed.

Lemma keyword_failure_propagates_witness :
  search Scenario.svc_keyword_down Scenario.pipeline Scenario.query None 5
  = Raise (CollaboratorError "connection refused").
Proof.
  destruct (keyword_failure_propagates Scenario.svc_keyword_down
              Scenario.pipeline Scenario.query None 5) as (_ & H & _).
  - reflexivity.
  - apply H. reflexivity.
Defined.

(** C7 as stated fails: with the keyword index unreachable the keyword
    stage returns no empty result and the pipeline run returns nothing. *)
Lemma keyword_failure_not_absorbed :
  (~ exists m,
       BM25FilterStage_search Scenario.svc_keyword_down Scenario.query None 100
       = Ok ([], m) /\ candidates_out m = 0%nat) /\
  (~ exists r,
       search Scenario.svc_keyword_down Scenario.pipeline Scenario.query None 5
       = Ok r).
Proof.
  split.
  - intros (m & H & _). vm_compute in H. discriminate.
  - intros (r & H). vm_compute in H. discriminate.
Qed.

(** C1 (as the code has it). In the scenario the run returns INC-1 and
    INC-2 in that order.  The merge keeps the keyword-stage INC-1, whose
    semantic score is 0, and the disabled re-ranker leaves the re-rank
    score at 0, so final_score(INC-1) = 0.10*0.6 + 0.40*0.93 = 0.432 and
    final_score(INC-2) = 0.25*0.80 + 0.40*0.75 = 0.5, both classified
    NONE under the default thresholds. *)
Theorem scenario_result :
  ids (_merge_candidates Scenario.keyword_candidates Scenario.semantic_candidates)
  = {["INC-1"%string; "INC-2"%string]} /\
  exists m1 m2 : IncidentMatch,
    Scenario.answer = Ok [m1; m2] /\
    im_incident_id m1 = "INC-1"%string /\
    (similarity_score m1 == 0.10 * 0.6 + 0.25 * 0 + 0.40 * 0.93 + 0.25 * 0)%Q /\
    (similarity_score m1 == 0.432)%Q /\
    confidence m1 = NONE /\
    im_incident_id m2 = "INC-2"%string /\
    (similarity_score m2 == 0.10 * 0 + 0.25 * 0.80 + 0.40 * 0.75 + 0.25 * 0)%Q /\
    (similarity_score m2 == 0.5)%Q /\
    confidence m2 = NONE.
Proof.
  split.
  - apply set_eq. intros x. rewrite elem_of_ids.
    assert (_merge_candidates Scenario.keyword_candidates
              Scenario.semantic_candidates
            = [bm25_candidate (mkPoint "INC-1" 0.6 Scenario.inc1_payload);
               bi_encoder_candidate (mkPoint "INC-2" 0.80 Scenario.inc2_payload)])
      as -> by (vm_compute; reflexivity).
    split.
    + intros (c & Hc & <-).
      apply elem_of_cons in Hc as [->|Hc]; [set_solver|].
      apply list_elem_of_singleton in Hc as ->. set_solver.
    + intros Hx. apply elem_of_union in Hx as [Hx|Hx];
        apply elem_of_singleton in Hx as ->.
      * eexists. split; [apply list_elem_of_here|reflexivity].
      * eexists. split; [apply list_elem_of_further, list_elem_of_here|].
        reflexivity.
  - destruct Scenario.answer as [ms|e] eqn:Ha; [|vm_compute in Ha; discriminate].
    vm_compute in Ha. simplify_eq.
    eexists _, _. split; [reflexivity|]. simpl.
    repeat split.
Qed.

(** The sum written in the scenario, 0.10*0.6 + 0.25*0.95 + 0.40*0.93 +
    0.25*0.93, is 0.902; under the default thresholds that score is
    PARTIAL. *)
Remark scenario_claimed_sum :
  (0.10 * 0.6 + 0.25 * 0.95 + 0.40 * 0.93 + 0.25 * 0.93 == 0.902)%Q /\
  EnhancedPatternMatchingEngine._calculate_confidence default_settings
    (0.10 * 0.6 + 0.25 * 0.95 + 0.40 * 0.93 + 0.25 * 0.93) = PARTIAL.
Proof. split; reflexivity. Qed.

(** C1 as stated fails: the run does not give INC-1 the final score
    0.10*0.6 + 0.25*0.95 + 0.40*0.93 + 0.25*0.93 with tier EXACT. *)
Lemma scenario_not_as_claimed :
  ~ exists m1 m2 : IncidentMatch,
      Scenario.answer = Ok [m1; m2] /\
      im_incident_id m1 = "INC-1"%string /\
      (similarity_score m1 == 0.10 * 0.6 + 0.25 * 0.95 + 0.40 * 0.93 + 0.25 * 0.93)%Q /\
      confidence m1 = EXACT /\
      im_incident_id m2 = "INC-2"%string /\
      (similarity_score m2 == 0.10 * 0 + 0.25 * 0.80 + 0.40 * 0.75 + 0.25 * 0.75)%Q /\
      confidence m2 = NONE.
Proof.
  intros (m1 & m2 & Ha & _ & Hs & _).
  vm_compute in Ha. simplify_eq. vm_compute in Hs. discriminate.
Qed.

(** * Further properties of the pipeline *)

(** ** Score ranges *)

(** X1. When the four stage scores lie in [0,1] so does the final score;
    a candidate whose re-rank score is 0 cannot score above 0.75, and one
    that also lacks the keyword or the semantic score cannot score above
    0.65. *)
Theorem final_score_range (c : CandidateIncident) :
  (0 <= bm25_score c <= 1)%Q ->
  (0 <= bi_encoder_score c <= 1)%Q ->
  (0 <= colbert_score c <= 1)%Q ->
  (0 <= cross_encoder_score c <= 1)%Q ->
  (0 <= _calculate_final_score c <= 1)%Q /\
  ((cross_encoder_score c == 0)%Q -> (_calculate_final_score c <= 0.75)%Q) /\
  ((cross_encoder_score c == 0)%Q ->
   (bm25_score c == 0)%Q \/ (bi_encoder_score c == 0)%Q ->
   (_calculate_final_score c <= 0.65)%Q).
Proof.
  intros H1 H2 H3 H4. unfold _calculate_final_score.
  split; [split; lra|]. split; [intros H0; lra|].
  intros H0 [H|H]; lra.
Qed.

Lemma final_score_range_witness :
  (_calculate_final_score
     (mkCandidate "INC-1" "" ∅ 0.6 0 0.93 0 0 []) <= 0.65)%Q.
Proof.
  destruct (final_score_range (mkCandidate "INC-1" "" ∅ 0.6 0 0.93 0 0 []))
    as (_ & _ & H); try (split; vm_compute; discriminate).
  apply H; [reflexivity|right; reflexivity].
Defined.

Lemma inject_nat_le (a b : nat) :
  (a <= b)%nat -> (inject_Z (Z.of_nat a) <= inject_Z (Z.of_nat b))%Q.
Proof. intros H. unfold Qle. simpl. lia. Qed.

Lemma inject_nat_lt (a b : nat) :
  (a < b)%nat -> (inject_Z (Z.of_nat a) < inject_Z (Z.of_nat b))%Q.
Proof. intros H. unfold Qlt. simpl. lia. Qed.

(** X2. The placeholder re-rank score of the enabled re-ranker: with
    stage scores in [0,1] it lies in [0,1] for positions up to 100, never
    exceeds the score at position 0, does not grow with the position, and
    is at most 0 past position 100, where the positional factor
    [1 - i * 0.01] has turned negative. *)
Theorem placeholder_score_range (i : nat) (c : CandidateIncident) :
  (0 <= bm25_score c <= 1)%Q ->
  (0 <= bi_encoder_score c <= 1)%Q ->
  (0 <= colbert_score c <= 1)%Q ->
  ((i <= 100)%nat -> (0 <= placeholder_score i c <= 1)%Q) /\
  (placeholder_score i c <= placeholder_score 0 c)%Q /\
  (placeholder_score (S i) c <= placeholder_score i c)%Q /\
  ((100 < i)%nat -> (placeholder_score i c <= 0)%Q).
Proof.
  intros H1 H2 H3. unfold placeholder_score.
  set (b := (0.10 * bm25_score c + 0.25 * bi_encoder_score c +
             0.40 * colbert_score c + 0.25 * bi_encoder_score c)%Q).
  assert (0 <= b <= 1)%Q as Hb by (unfold b; split; lra).
  assert (0 <= inject_Z (Z.of_nat i))%Q as Hi0
    by (apply (inject_nat_le 0 i); lia).
  assert (inject_Z (Z.of_nat (S i)) == inject_Z (Z.of_nat i) + 1)%Q as HS.
  { rewrite Nat2Z.inj_succ. unfold Z.succ. rewrite inject_Z_plus. reflexivity. }
  split; [|split; [|split]].
  - intros Hi. apply inject_nat_le in Hi.
    change (inject_Z (Z.of_nat 100)) with 100%Q in Hi.
    split; nra.
  - change (inject_Z (Z.of_nat 0)) with 0%Q. nra.
  - rewrite HS. nra.
  - intros Hi. apply inject_nat_lt in Hi.
    change (inject_Z (Z.of_nat 100)) with 100%Q in Hi. nra.
Qed.

Lemma placeholder_score_range_witness :
  (placeholder_score 101 (mkCandidate "INC-1" "" ∅ 0.6 0.95 0.93 0 0 []) <= 0)%Q.
Proof.
  destruct (placeholder_score_range 101
              (mkCandidate "INC-1" "" ∅ 0.6 0.95 0.93 0 0 []))
    as (_ & _ & _ & H); try (split; vm_compute; discriminate).
  apply H. lia.
Defined.

(** ** Metrics *)

Lemma reduction_rate_range (m : RetrievalMetrics) :
  (candidates_out m <= candidates_in m)%nat ->
  (0 <= reduction_rate m <= 1)%Q.
Proof.
  intros Hle. unfold reduction_rate.
  destruct (Nat.eqb_spec (candidates_in m) 0) as [E|E].
  - split; vm_compute; discriminate.
  - assert (0 < inject_Z (Z.of_nat (candidates_in m)))%Q as Hpos
      by (apply (inject_nat_lt 0); lia).
    assert (0 <= inject_Z (Z.of_nat (candidates_out m)))%Q as Hout
      by (apply (inject_nat_le 0); lia).
    apply inject_nat_le in Hle.
    set (a := inject_Z (Z.of_nat (candidates_out m))) in *.
    set (b := inject_Z (Z.of_nat (candidates_in m))) in *.
    assert (0 <= a / b)%Q by (apply Qle_shift_div_l; [done|lra]).
    assert (a / b <= 1)%Q by (apply Qle_shift_div_r; [done|lra]).
    split; lra.
Qed.

Lemma reduction_rate_same (m : RetrievalMetrics) :
  candidates_out m = candidates_in m -> (reduction_rate m == 0)%Q.
Proof.
  intros E. unfold reduction_rate. rewrite E.
  destruct (Nat.eqb_spec (candidates_in m) 0) as [E0|E0]; [reflexivity|].
  assert (0 < inject_Z (Z.of_nat (candidates_in m)))%Q as Hpos
    by (apply (inject_nat_lt 0); lia).
  set (b := inject_Z (Z.of_nat (candidates_in m))) in *.
  assert (b / b == 1)%Q as -> by (apply Qmult_inv_r; lra).
  reflexivity.
Qed.

(** ** What the stages do to a candidate *)

Lemma placeholder_score_le_base (i : nat) (c : CandidateIncident) :
  (0 <= 0.10 * bm25_score c + 0.25 * bi_encoder_score c +
        0.40 * colbert_score c + 0.25 * bi_encoder_score c)%Q ->
  (placeholder_score i c <=
   0.10 * bm25_score c + 0.25 * bi_encoder_score c +
   0.40 * colbert_score c + 0.25 * bi_encoder_score c)%Q.
Proof.
  intros Hb. unfold placeholder_score.
  assert (0 <= inject_Z (Z.of_nat i))%Q as Hi
    by (apply (inject_nat_le 0 i); lia).
  nra.
Qed.

Section Transfer.
Context {Embedding : Type} (svc : Services Embedding).

Lemma colbert_rescore_inv query c c' :
  colbert_rescore svc query c = Ok c' ->
  exists qe de,
    embed svc query = Ok qe /\ embed svc (detail_text c) = Ok de /\
    c' = set_colbert_score (cosine_similarity svc qe de) c.
Proof.
  unfold colbert_rescore. intros H.
  destruct (embed svc query) as [qe|e]; simpl in H; [|discriminate].
  destruct (embed svc (detail_text c)) as [de|e] eqn:Ed; simpl in H;
    [|discriminate].
  simplify_eq. by exists qe, de.
Qed.

Lemma ColBERTStage_score_transfer (P R : CandidateIncident -> Prop)
    self query candidates limit out m :
  (forall c, P c -> colbert_enabled self = false ->
             R (set_colbert_score (bi_encoder_score c) c)) ->
  (forall c qe de, P c -> colbert_enabled self = true ->
     embed svc query = Ok qe -> embed svc (detail_text c) = Ok de ->
     R (set_colbert_score (cosine_similarity svc qe de) c)) ->
  Forall P candidates ->
  ColBERTStage_score svc self query candidates limit = Ok (out, m) ->
  Forall R out.
Proof.
  intros Hoff Hon Hc. unfold ColBERTStage_score.
  destruct (colbert_enabled self) eqn:He; simpl; intros H.
  - destruct (omapM _ _) as [scored|e] eqn:Es; simpl in H; [|discriminate].
    simplify_eq. apply Forall_slice_to, Forall_sort_desc.
    apply omapM_Ok in Es.
    assert (Forall P (slice_to 50 candidates)) as Hs by by apply Forall_slice_to.
    clear Hc. induction Es as [|a b l l' Hab _ IH]; [done|].
    apply Forall_cons in Hs as [Ha Hs].
    constructor; [|by apply IH].
    apply colbert_rescore_inv in Hab as (qe & de & Hq & Hd & ->).
    by eapply Hon.
  - simplify_eq. apply Forall_fmap.
    eapply Forall_impl; [exact Hc|]. simpl. intros c Hc'. by apply Hoff.
Qed.

Lemma CrossEncoderStage_rerank_transfer (P R : CandidateIncident -> Prop)
    self query candidates limit out m :
  (forall c, P c -> rerank_disabled self = true -> R c) ->
  (forall i c, P c -> rerank_disabled self = false ->
     R (set_cross_encoder_score (placeholder_score i c) c)) ->
  Forall P candidates ->
  CrossEncoderStage_rerank self query candidates limit = Ok (out, m) ->
  Forall R out.
Proof.
  intros Hoff Hon Hc. unfold CrossEncoderStage_rerank.
  destruct (rerank_disabled self) eqn:Hd; intros H; simplify_eq.
  - apply Forall_slice_to. eapply Forall_impl; [exact Hc|].
    simpl. intros c Hc'. by apply Hoff.
  - apply Forall_slice_to, Forall_sort_desc.
    apply Forall_imap with (P := P); [|by apply Forall_slice_to].
    intros i c Hc'. by apply Hon.
Qed.

(** Every match of a completed run is a finalized candidate that went
    through the two index stages, the late-interaction stage and the
    re-ranking stage. *)
Lemma search_transfer (P0 P1 P2 : CandidateIncident -> Prop)
    self query filters limit r :
  search svc self query filters limit = Ok r ->
  (forall hits h,
     qdrant_search_text svc "incidents_bm25" query 100 = Ok hits ->
     h ∈ hits -> P0 (bm25_candidate h)) ->
  (forall qe hits h,
     embed svc query = Ok qe ->
     qdrant_search_vector svc "incidents_summary" qe 50 = Ok hits ->
     h ∈ hits -> P0 (bi_encoder_candidate h)) ->
  (forall c, P0 c -> colbert_enabled (colbert self) = false ->
     P1 (set_colbert_score (bi_encoder_score c) c)) ->
  (forall c qe de, P0 c -> colbert_enabled (colbert self) = true ->
     embed svc query = Ok qe -> embed svc (detail_text c) = Ok de ->
     P1 (set_colbert_score (cosine_similarity svc qe de) c)) ->
  (forall c, P1 c -> rerank_disabled (cross_encoder self) = true -> P2 c) ->
  (forall i c, P1 c -> rerank_disabled (cross_encoder self) = false ->
     P2 (set_cross_encoder_score (placeholder_score i c) c)) ->
  Forall (fun m => exists c, P2 c /\ m = finalize query c) (matches r).
Proof.
  intros Hr Hkw Hsem H1off H1on H2off H2on.
  apply search_Ok_inv in Hr
    as (bm & bmm & bi & bim & cc & cm & fc & xm & E1 & E2 & E3 & E4 & ->).
  apply BM25FilterStage_search_Ok in E1 as (hits1 & _ & Ht & -> & _).
  apply BiEncoderStage_search_Ok in E2 as (qe & hits2 & Hq & _ & Hv & -> & _).
  simpl. apply Forall_fmap, Forall_forall. intros c Hc. exists c.
  split; [|done]. revert c Hc. apply Forall_forall.
  eapply CrossEncoderStage_rerank_transfer; [exact H2off|exact H2on| |exact E4].
  eapply ColBERTStage_score_transfer; [exact H1off|exact H1on| |exact E3].
  apply Forall_merge_candidates; apply Forall_fmap, Forall_forall; intros h Hh.
  - by eapply Hkw.
  - by eapply Hsem.
Qed.
End Transfer.

Lemma filter_none {A} (P : A -> Prop) `{forall x, Decision (P x)} (l : list A) :
  Forall (fun x => ~ P x) l -> filter P l = [].
Proof.
  induction 1 as [|x l Hx _ IH]; [done|].
  by rewrite filter_cons_False.
Qed.

Lemma finalize_fields (query : string) (c : CandidateIncident) :
  incident_id (finalize query c) = incident_id c /\
  title (finalize query c) = title c /\
  payload (finalize query c) = payload c /\
  bm25_score (finalize query c) = bm25_score c /\
  bi_encoder_score (finalize query c) = bi_encoder_score c /\
  final_score (finalize query c) = _calculate_final_score c /\
  match_reasons (finalize query c) = _explain_match (finalize query c) query.
Proof. by repeat split. Qed.

(** ** Consequences for the matches of a run *)

(** X3. No match of a completed run carries both a keyword score and a
    semantic score: the merge keeps one stage's candidate and no later
    stage fills in the other score, so one of the two is always 0. *)
Theorem search_one_signal_per_match
    {Embedding : Type} (svc : Services Embedding)
    (self : HybridRetrievalPipeline) (query : string)
    (filters : option (gmap string string)) (limit : Z) (r : PipelineResult) :
  search svc self query filters limit = Ok r ->
  Forall (fun m => bm25_score m = 0%Q \/ bi_encoder_score m = 0%Q) (matches r).
Proof.
  intros Hr.
  pose (P := fun c => bm25_score c = 0%Q \/ bi_encoder_score c = 0%Q).
  eapply Forall_impl.
  - apply (search_transfer svc P P P _ _ _ _ _ Hr); unfold P; simpl; auto.
  - simpl. intros m (c & Hc & ->). exact Hc.
Qed.

Lemma search_one_signal_per_match_witness :
  exists r : PipelineResult,
    Scenario.run = Ok r /\
    Forall (fun m => bm25_score m = 0%Q \/ bi_encoder_score m = 0%Q) (matches r).
Proof.
  destruct Scenario.run as [r|e] eqn:Hr; [|vm_compute in Hr; discriminate].
  exists r. split; [reflexivity|].
  exact (search_one_signal_per_match Scenario.svc Scenario.pipeline
           Scenario.query None 5 r Hr).
Defined.

Lemma search_score_bound
    {Embedding : Type} (svc : Services Embedding)
    (self : HybridRetrievalPipeline) (query : string)
    (filters : option (gmap string string)) (limit : Z) (r : PipelineResult) :
  scores_in_unit_interval svc ->
  search svc self query filters limit = Ok r ->
  Forall (fun m =>
            (final_score m <= 0.875)%Q /\
            (rerank_disabled (cross_encoder self) = true ->
             (final_score m <= 0.65)%Q)) (matches r).
Proof.
  intros (Hkw & Hsem & Hcos) Hr.
  pose (P0 := fun c =>
    ((bm25_score c = 0%Q /\ (0 <= bi_encoder_score c <= 1)%Q) \/
     (bi_encoder_score c = 0%Q /\ (0 <= bm25_score c <= 1)%Q)) /\
    cross_encoder_score c = 0%Q).
  pose (P1 := fun c => P0 c /\ (0 <= colbert_score c <= 1)%Q).
  pose (P2 := fun c =>
    (_calculate_final_score c <= 0.875)%Q /\
    (rerank_disabled (cross_encoder self) = true ->
     (_calculate_final_score c <= 0.65)%Q)).
  eapply Forall_impl.
  - apply (search_transfer svc P0 P1 P2 _ _ _ _ _ Hr); unfold P0, P1, P2.
    + intros hits h Hh Hin. simpl. split; [|done]. right. split; [done|].
      apply Hkw in Hh. rewrite Forall_forall in Hh. by apply Hh.
    + intros qe hits h _ Hh Hin. simpl. split; [|done]. left. split; [done|].
      apply Hsem in Hh. rewrite Forall_forall in Hh. by apply Hh.
    + intros c [Hc H0] _. split; [done|]. simpl.
      destruct Hc as [[_ Hb]|[-> _]]; [done|]. split; vm_compute; discriminate.
    + intros c qe de Hc _ _ _. split; [done|]. simpl. apply Hcos.
    + intros c [[Hc H0] Hcol] _. unfold _calculate_final_score. rewrite H0.
      destruct Hc as [[-> Hb]|[-> Hb]]; (split; [|intros _]; lra).
    + intros i c [[Hc H0] Hcol] Hon. split; [|congruence].
      unfold _calculate_final_score. simpl.
      pose proof (placeholder_score_le_base i c) as Hp.
      destruct Hc as [[Hz Hb]|[Hz Hb]]; rewrite Hz in *; lra.
  - simpl. intros m (c & Hc & ->). exact Hc.
Qed.

(** X4. With the re-ranking stage disabled and index scores and
    similarities in [0,1], every match of a completed run has a final
    score of at most 0.65, so under the default thresholds every match is
    classified NONE and both [exact_matches] and [partial_matches] are
    empty. *)
Theorem rerank_disabled_all_none
    {Embedding : Type} (svc : Services Embedding)
    (self : HybridRetrievalPipeline) (query : string)
    (filters : option (gmap string string)) (limit : Z) (r : PipelineResult) :
  scores_in_unit_interval svc ->
  rerank_disabled (cross_encoder self) = true ->
  search svc self query filters limit = Ok r ->
  Forall (fun m =>
            (final_score m <= 0.65)%Q /\
            EnhancedPatternMatchingEngine._calculate_confidence
              default_settings (final_score m) = NONE) (matches r) /\
  exact_matches r = [] /\ partial_matches r = [].
Proof.
  intros Hsvc Hoff Hr.
  pose proof (search_score_bound svc self query filters limit r Hsvc Hr) as Hb.
  assert (Forall (fun m => (final_score m <= 0.65)%Q) (matches r)) as H65.
  { eapply Forall_impl; [exact Hb|]. simpl. intros m [_ H]. by apply H. }
  split; [|split].
  - eapply Forall_impl; [exact H65|]. simpl. intros m Hm. split; [done|].
    apply calculate_confidence_none. simpl. split; lra.
  - apply filter_none. eapply Forall_impl; [exact H65|]. simpl.
    intros m Hm He. apply Qleb_le in He. lra.
  - apply filter_none. eapply Forall_impl; [exact H65|]. simpl.
    intros m Hm He. apply andb_true_iff in He as [He _].
    apply Qleb_le in He. lra.
Qed.

Lemma scenario_scores_in_unit_interval : scores_in_unit_interval Scenario.svc.
Proof.
  split; [|split].
  - intros collection q lim hits H. simpl in H.
    destruct (String.eqb collection "incidents_bm25"); simplify_eq.
    + repeat constructor; vm_compute; discriminate.
    + constructor.
  - intros collection v lim hits H. simpl in H.
    destruct (String.eqb collection "incidents_summary"); simplify_eq.
    + repeat constructor; vm_compute; discriminate.
    + constructor.
  - intros q d. simpl.
    destruct (String.eqb d "connection timeout on db");
      [split; vm_compute; discriminate|].
    destruct (String.eqb d "cache timeout"); split; vm_compute; discriminate.
Defined.

Lemma rerank_disabled_all_none_witness :
  exists r : PipelineResult,
    Scenario.run = Ok r /\ exact_matches r = [] /\ partial_matches r = [].
Proof.
  destruct Scenario.run as [r|e] eqn:Hr; [|vm_compute in Hr; discriminate].
  exists r. split; [reflexivity|].
  apply (rerank_disabled_all_none Scenario.svc Scenario.pipeline
           Scenario.query None 5 r scenario_scores_in_unit_interval
           eq_refl Hr).
Defined.

(** X5. Whatever stages are enabled, with index scores and similarities
    in [0,1] no match of a completed run has a final score above 0.875:
    under the default thresholds no match is classified EXACT and
    [exact_matches] is empty. *)
Theorem search_never_exact
    {Embedding : Type} (svc : Services Embedding)
    (self : HybridRetrievalPipeline) (query : string)
    (filters : option (gmap string string)) (limit : Z) (r : PipelineResult) :
  scores_in_unit_interval svc ->
  search svc self query filters limit = Ok r ->
  Forall (fun m =>
            (final_score m <= 0.875)%Q /\
            EnhancedPatternMatchingEngine._calculate_confidence
              default_settings (final_score m) <> EXACT) (matches r) /\
  exact_matches r = [].
Proof.
  intros Hsvc Hr.
  pose proof (search_score_bound svc self query filters limit r Hsvc Hr) as Hb.
  split.
  - eapply Forall_impl; [exact Hb|]. simpl. intros m [Hm _]. split; [done|].
    rewrite calculate_confidence_exact. simpl. lra.
  - apply filter_none. eapply Forall_impl; [exact Hb|]. simpl.
    intros m [Hm _] He. apply Qleb_le in He. lra.
Qed.

Lemma search_never_exact_witness :
  exists r : PipelineResult,
    search Scenario.svc
      (mkPipeline (mkColBERT true) (mkCrossEncoder (Some cross_encoder_model) true 20))
      Scenario.query None 5 = Ok r /\
    exact_matches r = [].
Proof.
  destruct (search Scenario.svc
              (mkPipeline (mkColBERT true)
                 (mkCrossEncoder (Some cross_encoder_model) true 20))
              Scenario.query None 5) as [r|e] eqn:Hr;
    [|vm_compute in Hr; discriminate].
  exists r. split; [reflexivity|].
  apply (search_never_exact Scenario.svc _ Scenario.query None 5 r
           scenario_scores_in_unit_interval Hr).
Defined.

(** ** Identifiers and sizes through the stages *)

Lemma slice_to_submseteq {A} (n : Z) (l : list A) : slice_to n l ⊆+ l.
Proof.
  apply sublist_submseteq. unfold slice_to.
  destruct (0 <=? n); apply sublist_take.
Qed.

Lemma slice_to_length_le {A} (n : Z) (l : list A) :
  (length (slice_to n l) <= length l)%nat.
Proof. apply submseteq_length, slice_to_submseteq. Qed.

Lemma submseteq_NoDup_l {A} (l k : list A) : l ⊆+ k -> NoDup k -> NoDup l.
Proof.
  intros Hs Hk. apply submseteq_Permutation in Hs as [k' Hk'].
  rewrite Hk' in Hk. by apply NoDup_app in Hk as [Hl _].
Qed.

Lemma fmap_imap_const {A B C} (g : B -> C) (h : A -> C) (f : nat -> A -> B)
    (l : list A) :
  (forall i a, g (f i a) = h a) -> g <$> imap f l = h <$> l.
Proof.
  revert f. induction l as [|a l IH]; intros f Hf; simpl; [done|].
  rewrite Hf. f_equal. apply IH. intros i b. apply Hf.
Qed.

Section Identifiers.
Context {Embedding : Type} (svc : Services Embedding).

Lemma omapM_rescore_ids query (l l' : list CandidateIncident) :
  omapM (colbert_rescore svc query) l = Ok l' ->
  incident_id <$> l' = incident_id <$> l.
Proof.
  intros H. apply omapM_Ok in H.
  induction H as [|a b l l' Hab _ IH]; [done|].
  apply colbert_rescore_inv in Hab as (qe & de & _ & _ & ->).
  rewrite !fmap_cons. simpl. f_equal. exact IH.
Qed.

Lemma ColBERTStage_score_ids self query candidates limit out m :
  ColBERTStage_score svc self query candidates limit = Ok (out, m) ->
  incident_id <$> out ⊆+ incident_id <$> candidates.
Proof.
  unfold ColBERTStage_score.
  destruct (colbert_enabled self); simpl; intros H.
  - destruct (omapM _ _) as [scored|e] eqn:Es; simpl in H; [|discriminate].
    simplify_eq. apply omapM_rescore_ids in Es.
    rewrite slice_to_fmap. etrans; [apply slice_to_submseteq|].
    rewrite sort_desc_perm, Es, slice_to_fmap. apply slice_to_submseteq.
  - simplify_eq. rewrite <- list_fmap_compose. done.
Qed.

Lemma ColBERTStage_score_metrics self query candidates limit out m :
  ColBERTStage_score svc self query candidates limit = Ok (out, m) ->
  stage m = COLBERT /\
  candidates_in m = length candidates /\ candidates_out m = length out /\
  (colbert_enabled self = true ->
   (length out <= 50)%nat /\ (0 <= limit -> (length out <= Z.to_nat limit)%nat)).
Proof.
  unfold ColBERTStage_score.
  destruct (colbert_enabled self); simpl; intros H.
  - destruct (omapM _ _) as [scored|e] eqn:Es; simpl in H; [|discriminate].
    simplify_eq. simpl. repeat split; [|by apply slice_to_length].
    etrans; [apply slice_to_length_le|].
    rewrite (Permutation_length (sort_desc_perm colbert_score scored)).
    apply omapM_Ok, Forall2_length in Es. rewrite <- Es.
    apply (slice_to_length 50). lia.
  - simplify_eq. simpl. rewrite length_map. repeat split; discriminate.
Qed.
End Identifiers.

Lemma CrossEncoderStage_rerank_ids self query candidates limit out m :
  CrossEncoderStage_rerank self query candidates limit = Ok (out, m) ->
  incident_id <$> out ⊆+ incident_id <$> candidates.
Proof.
  unfold CrossEncoderStage_rerank.
  destruct (rerank_disabled self); intros H; simplify_eq.
  - rewrite slice_to_fmap. apply slice_to_submseteq.
  - rewrite slice_to_fmap. etrans; [apply slice_to_submseteq|].
    rewrite sort_desc_perm.
    rewrite (fmap_imap_const incident_id incident_id) by done.
    rewrite slice_to_fmap. apply slice_to_submseteq.
Qed.

Lemma CrossEncoderStage_rerank_metrics self query candidates limit out m :
  CrossEncoderStage_rerank self query candidates limit = Ok (out, m) ->
  stage m = CROSS_ENCODER /\
  candidates_in m = length candidates /\ candidates_out m = length out.
Proof.
  unfold CrossEncoderStage_rerank.
  destruct (rerank_disabled self); intros H; by simplify_eq.
Qed.

(** X6. The matches of a completed run have pairwise distinct
    identifiers, and each match is a hit of one of the two indexes: it
    carries that hit's identifier, payload, title and score, the keyword
    score for a hit of the keyword index (semantic score 0), the semantic
    score for a hit of the summary index (keyword score 0). *)
Theorem search_matches_unique_hits
    {Embedding : Type} (svc : Services Embedding)
    (self : HybridRetrievalPipeline) (query : string)
    (filters : option (gmap string string)) (limit : Z) (r : PipelineResult) :
  search svc self query filters limit = Ok r ->
  NoDup (incident_id <$> matches r) /\
  Forall (fun m =>
    (exists hits h,
       qdrant_search_text svc "incidents_bm25" query 100 = Ok hits /\
       h ∈ hits /\ incident_id m = sp_id h /\ payload m = sp_payload h /\
       title m = payload_get (sp_payload h) "title" /\
       bm25_score m = sp_score h /\ bi_encoder_score m = 0%Q) \/
    (exists qe hits h,
       embed svc query = Ok qe /\
       qdrant_search_vector svc "incidents_summary" qe 50 = Ok hits /\
       h ∈ hits /\ incident_id m = sp_id h /\ payload m = sp_payload h /\
       title m = payload_get (sp_payload h) "title" /\
       bi_encoder_score m = sp_score h /\ bm25_score m = 0%Q))
    (matches r).
Proof.
  intros Hr. split.
  - apply search_Ok_inv in Hr
      as (bm & bmm & bi & bim & cc & cm & fc & xm & E1 & E2 & E3 & E4 & ->).
    simpl. rewrite <- list_fmap_compose.
    apply ColBERTStage_score_ids in E3.
    apply CrossEncoderStage_rerank_ids in E4.
    eapply submseteq_NoDup_l; [|apply (merge_candidates_NoDup bm bi)].
    etrans; [exact E4|exact E3].
  - pose (P := fun m =>
      (exists hits h,
         qdrant_search_text svc "incidents_bm25" query 100 = Ok hits /\
         h ∈ hits /\ incident_id m = sp_id h /\ payload m = sp_payload h /\
         title m = payload_get (sp_payload h) "title" /\
         bm25_score m = sp_score h /\ bi_encoder_score m = 0%Q) \/
      (exists qe hits h,
         embed svc query = Ok qe /\
         qdrant_search_vector svc "incidents_summary" qe 50 = Ok hits /\
         h ∈ hits /\ incident_id m = sp_id h /\ payload m = sp_payload h /\
         title m = payload_get (sp_payload h) "title" /\
         bi_encoder_score m = sp_score h /\ bm25_score m = 0%Q)).
    eapply Forall_impl.
    + apply (search_transfer svc P P P _ _ _ _ _ Hr); unfold P; simpl; auto.
      * intros hits h Hh Hin. left. by exists hits, h.
      * intros qe hits h Hq Hh Hin. right. by exists qe, hits, h.
    + simpl. intros m (c & Hc & ->). exact Hc.
Qed.

Lemma search_matches_unique_hits_witness :
  exists r : PipelineResult,
    Scenario.run = Ok r /\ NoDup (incident_id <$> matches r).
Proof.
  destruct Scenario.run as [r|e] eqn:Hr; [|vm_compute in Hr; discriminate].
  exists r. split; [reflexivity|].
  apply (search_matches_unique_hits Scenario.svc Scenario.pipeline
           Scenario.query None 5 r Hr).
Defined.

(** X7. The metrics of a completed run are four records, one per stage
    in pipeline order, whose counts chain: the two index stages report
    [candidates_in = candidates_out]; the late-interaction stage takes in
    at most the sum of their outputs and, when enabled, hands on at most
    20 candidates; the re-ranking stage takes in what the late-interaction
    stage handed on and its output count is the number of matches.  No
    stage reports more candidates out than in, so every reduction rate
    lies in [0,1], and the two index stages always report a reduction
    rate of 0. *)
Theorem search_metrics_chain
    {Embedding : Type} (svc : Services Embedding)
    (self : HybridRetrievalPipeline) (query : string)
    (filters : option (gmap string string)) (limit : Z) (r : PipelineResult) :
  search svc self query filters limit = Ok r ->
  exists m1 m2 m3 m4 : RetrievalMetrics,
    metrics r = [m1; m2; m3; m4] /\
    stage m1 = BM25_FILTER /\ stage m2 = BI_ENCODER /\
    stage m3 = COLBERT /\ stage m4 = CROSS_ENCODER /\
    candidates_in m1 = candidates_out m1 /\
    candidates_in m2 = candidates_out m2 /\
    (candidates_in m3 <= candidates_out m1 + candidates_out m2)%nat /\
    (candidates_out m3 <= candidates_in m3)%nat /\
    (colbert_enabled (colbert self) = true -> (candidates_out m3 <= 20)%nat) /\
    candidates_in m4 = candidates_out m3 /\
    (candidates_out m4 <= candidates_in m4)%nat /\
    candidates_out m4 = length (matches r) /\
    Forall (fun m => (0 <= reduction_rate m <= 1)%Q) (metrics r) /\
    (reduction_rate m1 == 0)%Q /\ (reduction_rate m2 == 0)%Q.
Proof.
  intros Hr.
  apply search_Ok_inv in Hr
    as (bm & bmm & bi & bim & cc & cm & fc & xm & E1 & E2 & E3 & E4 & ->).
  apply BM25FilterStage_search_Ok in E1 as (hits1 & _ & _ & Hbm & ->).
  apply BiEncoderStage_search_Ok in E2 as (qe & hits2 & _ & _ & _ & Hbi & ->).
  pose proof (ColBERTStage_score_ids _ _ _ _ _ _ _ E3) as Hsub3.
  pose proof (CrossEncoderStage_rerank_ids _ _ _ _ _ _ E4) as Hsub4.
  apply submseteq_length in Hsub3, Hsub4. rewrite !length_fmap in Hsub3, Hsub4.
  apply ColBERTStage_score_metrics in E3 as (Hs3 & Hin3 & Hout3 & Hen3).
  apply CrossEncoderStage_rerank_metrics in E4 as (Hs4 & Hin4 & Hout4).
  assert (length (_merge_candidates bm bi) <= length bm + length bi)%nat as Hm.
  { rewrite merge_candidates_first_seen, <- length_app.
    apply sublist_length, first_seen_sublist. }
  exists (mkMetrics BM25_FILTER (length bm) (length bm)),
         (mkMetrics BI_ENCODER (length bi) (length bi)), cm, xm.
  simpl. rewrite length_map.
  repeat match goal with |- _ /\ _ => split end; try done; try lia.
  - intros He. destruct (Hen3 He) as [_ H20]. specialize (H20 ltac:(lia)). lia.
  - repeat (constructor; [apply reduction_rate_range; simpl; lia|]).
    constructor.
  - by apply reduction_rate_same.
  - by apply reduction_rate_same.
Qed.

Lemma search_metrics_chain_witness :
  exists (r : PipelineResult) (m1 m2 m3 m4 : RetrievalMetrics),
    Scenario.run = Ok r /\ metrics r = [m1; m2; m3; m4] /\
    (candidates_in m3 <= candidates_out m1 + candidates_out m2)%nat.
Proof.
  destruct Scenario.run as [r|e] eqn:Hr; [|vm_compute in Hr; discriminate].
  destruct (search_metrics_chain Scenario.svc Scenario.pipeline
              Scenario.query None 5 r Hr)
    as (m1 & m2 & m3 & m4 & Hm & _ & _ & _ & _ & _ & _ & Hle & _).
  by exists r, m1, m2, m3, m4.
Defined.

(** ** When a run completes *)

Lemma omapM_is_Ok {A B} (f : A -> outcome B) (l : list A) :
  Forall (fun a => exists b, f a = Ok b) l <-> exists l', omapM f l = Ok l'.
Proof.
  split.
  - induction 1 as [|a l [b Hb] _ [l' IH]]; simpl; [by exists []|].
    exists (b :: l'). by rewrite Hb, IH.
  - intros [l' H]. apply omapM_Ok in H.
    induction H as [|a b l l' Hab _ IH]; constructor; eauto.
Qed.

Lemma slice_to_nil {A} (n : Z) : slice_to n (@nil A) = [].
Proof. unfold slice_to. destruct (0 <=? n); apply take_nil. Qed.

Section Completion.
Context {Embedding : Type} (svc : Services Embedding).

Lemma colbert_rescore_is_Ok query c :
  (exists c', colbert_rescore svc query c = Ok c') <->
  (exists qe, embed svc query = Ok qe) /\
  (exists de, embed svc (detail_text c) = Ok de).
Proof.
  unfold colbert_rescore. split.
  - intros [c' H].
    destruct (embed svc query) as [qe|e]; simpl in H; [|discriminate].
    destruct (embed svc (detail_text c)) as [de|e]; simpl in H; [|discriminate].
    eauto.
  - intros [[qe ->] [de ->]]. simpl. eauto.
Qed.

Lemma ColBERTStage_score_is_Ok self query candidates limit :
  (exists out m,
     ColBERTStage_score svc self query candidates limit = Ok (out, m)) <->
  (colbert_enabled self = true ->
   Forall (fun c => exists c', colbert_rescore svc query c = Ok c')
          (slice_to 50 candidates)).
Proof.
  unfold ColBERTStage_score. destruct (colbert_enabled self); simpl.
  - rewrite omapM_is_Ok. split.
    + intros (out & m & H) _.
      destruct (omapM _ _) as [scored|e]; simpl in H; [|discriminate]. eauto.
    + intros H. destruct (H eq_refl) as [scored ->]. simpl. eauto.
  - split; [discriminate|]. eauto.
Qed.

Lemma CrossEncoderStage_rerank_is_Ok self query candidates limit :
  exists out m,
    CrossEncoderStage_rerank self query candidates limit = Ok (out, m).
Proof.
  unfold CrossEncoderStage_rerank. destruct (rerank_disabled self); eauto.
Qed.
End Completion.

(** X8. A run completes exactly when no filters are passed, the keyword
    index, the embedding of the query and the summary index all answer,
    and, with late interaction enabled, the embedding service answers for
    the detail text of each of the first 50 merged candidates.  The
    re-ranking stage never makes a run fail. *)
Theorem search_completes_iff
    {Embedding : Type} (svc : Services Embedding)
    (self : HybridRetrievalPipeline) (query : string)
    (filters : option (gmap string string)) (limit : Z) :
  (exists r, search svc self query filters limit = Ok r) <->
  filters_truthy filters = false /\
  exists kw qe sem,
    qdrant_search_text svc "incidents_bm25" query 100 = Ok kw /\
    embed svc query = Ok qe /\
    qdrant_search_vector svc "incidents_summary" qe 50 = Ok sem /\
    (colbert_enabled (colbert self) = true ->
     Forall (fun c => exists de, embed svc (detail_text c) = Ok de)
       (slice_to 50 (_merge_candidates (map bm25_candidate kw)
                                       (map bi_encoder_candidate sem)))).
Proof.
  split.
  - intros [r Hr].
    apply search_Ok_inv in Hr
      as (bm & bmm & bi & bim & cc & cm & fc & xm & E1 & E2 & E3 & E4 & ->).
    apply BM25FilterStage_search_Ok in E1 as (kw & Hf & Hkw & -> & _).
    apply BiEncoderStage_search_Ok in E2 as (qe & sem & Hq & _ & Hsem & -> & _).
    split; [done|]. exists kw, qe, sem. repeat split; try done.
    intros He.
    assert (exists out m,
              ColBERTStage_score svc (colbert self) query
                (_merge_candidates (map bm25_candidate kw)
                   (map bi_encoder_candidate sem)) 20 = Ok (out, m)) as Hok
      by eauto.
    apply ColBERTStage_score_is_Ok in Hok; [|done].
    eapply Forall_impl; [exact Hok|]. simpl. intros c Hc.
    by apply colbert_rescore_is_Ok in Hc as [_ Hd].
  - intros (Hf & kw & qe & sem & Hkw & Hq & Hsem & Hdet).
    destruct (proj2 (ColBERTStage_score_is_Ok svc (colbert self) query
                (_merge_candidates (map bm25_candidate kw)
                   (map bi_encoder_candidate sem)) 20)) as (cc & cm & E3).
    { intros He. eapply Forall_impl; [exact (Hdet He)|]. simpl. intros c Hc.
      apply colbert_rescore_is_Ok. eauto. }
    destruct (CrossEncoderStage_rerank_is_Ok (cross_encoder self) query cc limit)
      as (fc & xm & E4).
    unfold search, BM25FilterStage_search, BiEncoderStage_search, query_filter.
    rewrite Hf. simpl. rewrite Hkw. simpl. rewrite Hq. simpl.
    rewrite Hsem. simpl. rewrite E3. simpl. rewrite E4. simpl. eauto.
Qed.

(** X9. A run with non-empty filters raises [AttributeError] for
    [_build_filters] whatever the collaborators answer, and so does the
    engine's pipeline search for every non-empty service name. *)
Theorem search_with_filters_raises
    {Embedding : Type} (svc : Services Embedding)
    (settings : PatternMatchingSettings)
    (self : HybridRetrievalPipeline) (query : string) (limit : Z) :
  (forall filters : gmap string string,
     filters <> ∅ ->
     search svc self query (Some filters) limit
     = Raise (AttributeError "_build_filters")) /\
  (forall service : string,
     service <> ""%string ->
     EnhancedPatternMatchingEngine._search_with_pipeline
       svc settings self query (Some service) limit
     = Raise (AttributeError "_build_filters")).
Proof.
  assert (forall filters : gmap string string,
            filters <> ∅ ->
            search svc self query (Some filters) limit
            = Raise (AttributeError "_build_filters")) as H.
  { intros filters Hne.
    unfold search, BM25FilterStage_search, query_filter, filters_truthy.
    by rewrite bool_decide_eq_false_2. }
  split; [exact H|].
  intros service Hne.
  unfold EnhancedPatternMatchingEngine._search_with_pipeline.
  rewrite bool_decide_eq_false_2 by done.
  rewrite H; [done|]. apply map_non_empty_singleton.
Qed.

(** X10. When both indexes answer with no hits the run completes with
    no matches, four metrics records that count 0 in and 0 out, empty
    [exact_matches] and [partial_matches], and an exact-match rate of 0 in
    the summary, whichever stages are enabled. *)
Theorem search_no_hits
    {Embedding : Type} (svc : Services Embedding)
    (self : HybridRetrievalPipeline) (query : string)
    (filters : option (gmap string string)) (limit : Z) (qe : Embedding) :
  filters_truthy filters = false ->
  qdrant_search_text svc "incidents_bm25" query 100 = Ok [] ->
  embed svc query = Ok qe ->
  qdrant_search_vector svc "incidents_summary" qe 50 = Ok [] ->
  exists r,
    search svc self query filters limit = Ok r /\
    matches r = [] /\
    metrics r = [mkMetrics BM25_FILTER 0 0; mkMetrics BI_ENCODER 0 0;
                 mkMetrics COLBERT 0 0; mkMetrics CROSS_ENCODER 0 0] /\
    exact_matches r = [] /\ partial_matches r = [] /\
    sd_total_matches (to_summary_dict r) = 0%nat /\
    (sd_exact_match_rate (to_summary_dict r) == 0)%Q.
Proof.
  intros Hf Hkw Hq Hsem.
  unfold search, BM25FilterStage_search, BiEncoderStage_search, query_filter.
  rewrite Hf. simpl. rewrite Hkw. simpl. rewrite Hq. simpl. rewrite Hsem. simpl.
  unfold ColBERTStage_score, CrossEncoderStage_rerank.
  pose proof (@slice_to_nil CandidateIncident) as Hnil.
  destruct (colbert_enabled (colbert self)),
    (rerank_disabled (cross_encoder self)); simpl;
    rewrite ?Hnil; simpl; rewrite ?Hnil; eexists; by repeat split.
Qed.

Lemma search_no_hits_witness :
  exists r,
    search (mkServices string (fun _ _ _ => Ok []) (fun _ _ _ => Ok [])
              (fun text => Ok text) (fun _ _ => 0%Q))
      Scenario.pipeline Scenario.query None 5 = Ok r /\
    matches r = [].
Proof.
  destruct (search_no_hits
              (mkServices string (fun _ _ _ => Ok []) (fun _ _ _ => Ok [])
                 (fun text => Ok text) (fun _ _ => 0%Q))
              Scenario.pipeline Scenario.query None 5 Scenario.query)
    as (r & Hr & Hm & _); try reflexivity.
  by exists r.
Defined.

(** ** Ranking with the optional stages off or on *)


(** X11. With late interaction and re-ranking both disabled the matches
    are the merged candidates in merge order, keyword hits before
    semantic hits, cut to [limit]; each match gets its semantic score as
    late-interaction score and the final score
    0.10 * keyword + 0.65 * semantic. *)
Theorem search_fallback_order
    {Embedding : Type} (svc : Services Embedding)
    (self : HybridRetrievalPipeline) (query : string)
    (filters : option (gmap string string)) (limit : Z) (r : PipelineResult) :
  colbert_enabled (colbert self) = false ->
  rerank_disabled (cross_encoder self) = true ->
  search svc self query filters limit = Ok r ->
  exists kw qe sem,
    qdrant_search_text svc "incidents_bm25" query 100 = Ok kw /\
    embed svc query = Ok qe /\
    qdrant_search_vector svc "incidents_summary" qe 50 = Ok sem /\
    incident_id <$> matches r
    = slice_to limit
        (incident_id <$> _merge_candidates (map bm25_candidate kw)
                                           (map bi_encoder_candidate sem)) /\
    Forall (fun m =>
              colbert_score m = bi_encoder_score m /\
              (final_score m ==
               0.10 * bm25_score m + 0.65 * bi_encoder_score m)%Q)
           (matches r).
Proof.
  intros Hc Hx Hr.
  pose proof (search_transfer svc
    (fun c => cross_encoder_score c = 0%Q)
    (fun c => cross_encoder_score c = 0%Q /\ colbert_score c = bi_encoder_score c)
    (fun c => cross_encoder_score c = 0%Q /\ colbert_score c = bi_encoder_score c)
    self query filters limit r Hr) as Hall.
  apply search_Ok_inv in Hr
    as (bm & bmm & bi & bim & cc & cm & fc & xm & E1 & E2 & E3 & E4 & ->).
  apply BM25FilterStage_search_Ok in E1 as (kw & _ & Hkw & -> & _).
  apply BiEncoderStage_search_Ok in E2 as (qe & sem & Hq & _ & Hsem & -> & _).
  exists kw, qe, sem. repeat split; try done.
  - rewrite CrossEncoderStage_rerank_disabled in E4 by done.
    unfold ColBERTStage_score in E3. rewrite Hc in E3. simpl in E3 |- *.
    simplify_eq. by apply ids_finalize_slice.
  - eapply Forall_impl.
    + apply Hall; simpl; try done; try congruence.
    + simpl. intros m (c & [H0 Hcol] & ->). split; [done|]. simpl.
      unfold _calculate_final_score. rewrite H0, Hcol. lra.
Qed.

Lemma search_fallback_order_witness :
  exists r : PipelineResult,
    search Scenario.svc (mkPipeline (mkColBERT false) (mkCrossEncoder None false 20))
      Scenario.query None 5 = Ok r /\
    incident_id <$> matches r = ["INC-1"%string; "INC-2"%string].
Proof.
  destruct (search Scenario.svc
              (mkPipeline (mkColBERT false) (mkCrossEncoder None false 20))
              Scenario.query None 5) as [r|e] eqn:Hr;
    [|vm_compute in Hr; discriminate].
  destruct (search_fallback_order Scenario.svc
              (mkPipeline (mkColBERT false) (mkCrossEncoder None false 20))
              Scenario.query None 5 r eq_refl eq_refl Hr)
    as (kw & qe & sem & Hkw & Hq & Hsem & Hids & _).
  exists r. split; [reflexivity|].
  vm_compute in Hkw, Hsem. simplify_eq. rewrite Hids. vm_compute. reflexivity.
Defined.

(** X12. The enabled late-interaction stage, when it returns, gives a
    list in descending order of late-interaction score, of at most 50
    candidates and at most [limit] of them; each is one of the first 50
    input candidates with only its late-interaction score replaced by the
    similarity of the query and its detail text, so input candidates past
    position 50 are dropped.  When the input has at most 50 candidates and
    [limit] covers them, the output holds the same identifiers as the
    input. *)
Theorem colbert_enabled_output
    {Embedding : Type} (svc : Services Embedding)
    (self : ColBERTStage) (query : string)
    (candidates : list CandidateIncident) (limit : Z)
    (out : list CandidateIncident) (m : RetrievalMetrics) :
  colbert_enabled self = true ->
  ColBERTStage_score svc self query candidates limit = Ok (out, m) ->
  sorted_desc colbert_score out /\
  (length out <= 50)%nat /\
  (0 <= limit -> (length out <= Z.to_nat limit)%nat) /\
  incident_id <$> out ⊆+ incident_id <$> slice_to 50 candidates /\
  Forall (fun o => exists c qe de,
            c ∈ slice_to 50 candidates /\
            embed svc query = Ok qe /\ embed svc (detail_text c) = Ok de /\
            o = set_colbert_score (cosine_similarity svc qe de) c) out /\
  ((length candidates <= 50)%nat -> Z.of_nat (length candidates) <= limit ->
   incident_id <$> out ≡ₚ incident_id <$> candidates).
Proof.
  intros He H.
  split; [by eapply ColBERTStage_score_sorted|].
  destruct (ColBERTStage_score_metrics svc _ _ _ _ _ _ H) as (_ & _ & _ & Hlen).
  destruct (Hlen He) as [H50 Hlim].
  split; [done|]. split; [done|].
  unfold ColBERTStage_score in H. rewrite He in H. simpl in H.
  destruct (omapM _ _) as [scored|e] eqn:Es; simpl in H; [|discriminate].
  simplify_eq.
  pose proof (omapM_rescore_ids svc _ _ _ Es) as Hids.
  split; [|split].
  - rewrite slice_to_fmap. etrans; [apply slice_to_submseteq|].
    by rewrite sort_desc_perm, Hids.
  - apply Forall_slice_to, Forall_sort_desc.
    apply omapM_Ok in Es. apply Forall_forall. intros o Ho.
    apply list_elem_of_lookup in Ho as [i Hi].
    destruct (Forall2_lookup_r _ _ _ _ _ Es Hi) as (c & Hc & Hco).
    apply colbert_rescore_inv in Hco as (qe & de & Hq & Hd & ->).
    exists c, qe, de. split; [by eapply list_elem_of_lookup_2|done].
  - intros Hn Hl.
    rewrite slice_to_all.
    + rewrite sort_desc_perm, Hids. by rewrite slice_to_all by lia.
    + rewrite (Permutation_length (sort_desc_perm colbert_score scored)).
      apply omapM_Ok, Forall2_length in Es. rewrite <- Es.
      pose proof (slice_to_length_le 50 candidates). lia.
Qed.

Lemma colbert_enabled_output_witness :
  exists out m,
    ColBERTStage_score Scenario.svc (mkColBERT true) Scenario.query
      (_merge_candidates Scenario.keyword_candidates Scenario.semantic_candidates)
      20 = Ok (out, m) /\
    sorted_desc colbert_score out.
Proof.
  destruct (ColBERTStage_score Scenario.svc (mkColBERT true) Scenario.query
              (_merge_candidates Scenario.keyword_candidates
                 Scenario.semantic_candidates) 20)
    as [[out m]|e] eqn:H; [|vm_compute in H; discriminate].
  exists out, m. split; [reflexivity|].
  apply (colbert_enabled_output Scenario.svc (mkColBERT true) Scenario.query
           _ 20 out m eq_refl H).
Defined.

(** ** Match reasons *)

Lemma elem_of_if_singleton (b : bool) (s t : string) :
  s ∈ (if b then [t] else []) <-> b = true /\ s = t.
Proof.
  destruct b.
  - rewrite list_elem_of_singleton. naive_solver.
  - split; [by intros ?%elem_of_nil|by intros [? _]].
Qed.

Lemma explain_match_elem (c : CandidateIncident) (query s : string) :
  s ∈ _explain_match c query <->
  ((0.8 < bm25_score c)%Q /\ s = "Strong keyword match"%string) \/
  ((0.9 < bi_encoder_score c)%Q /\ s = "High semantic similarity"%string) \/
  ((0.9 < colbert_score c)%Q /\ s = "Token-level precision match"%string) \/
  ((0.9 < cross_encoder_score c)%Q /\ s = "Cross-encoder verified"%string).
Proof.
  unfold _explain_match.
  rewrite !elem_of_app, !elem_of_if_singleton, !Qltb_lt. tauto.
Qed.

(** X13. The reasons attached to a match of a completed run are computed
    from the scores of that very match, always in the order keyword,
    semantic, late interaction, re-rank; a reason is present exactly when
    its score exceeds its threshold (0.8 for the keyword score, 0.9 for
    the others); and with the re-ranking stage disabled "Cross-encoder
    verified" is never among them. *)
Theorem search_match_reasons
    {Embedding : Type} (svc : Services Embedding)
    (self : HybridRetrievalPipeline) (query : string)
    (filters : option (gmap string string)) (limit : Z) (r : PipelineResult) :
  search svc self query filters limit = Ok r ->
  Forall (fun m =>
    match_reasons m `sublist_of`
      ["Strong keyword match"%string; "High semantic similarity"%string;
       "Token-level precision match"%string; "Cross-encoder verified"%string] /\
    ("Strong keyword match"%string ∈ match_reasons m <-> (0.8 < bm25_score m)%Q) /\
    ("High semantic similarity"%string ∈ match_reasons m
     <-> (0.9 < bi_encoder_score m)%Q) /\
    ("Token-level precision match"%string ∈ match_reasons m
     <-> (0.9 < colbert_score m)%Q) /\
    ("Cross-encoder verified"%string ∈ match_reasons m
     <-> (0.9 < cross_encoder_score m)%Q) /\
    (rerank_disabled (cross_encoder self) = true ->
     "Cross-encoder verified"%string ∉ match_reasons m)) (matches r).
Proof.
  intros Hr.
  pose proof (search_transfer svc
    (fun c => cross_encoder_score c = 0%Q)
    (fun c => cross_encoder_score c = 0%Q)
    (fun c => rerank_disabled (cross_encoder self) = true ->
              cross_encoder_score c = 0%Q)
    self query filters limit r Hr) as Hall.
  eapply Forall_impl; [apply Hall; simpl; try done; congruence|].
  simpl. intros m (c & Hc & ->).
  destruct (finalize_fields query c) as (_ & _ & _ & _ & _ & _ & ->).
  split.
  - unfold _explain_match.
    destruct (Qltb 0.8 _), (Qltb 0.9 (bi_encoder_score _)),
      (Qltb 0.9 (colbert_score _)), (Qltb 0.9 (cross_encoder_score _)); simpl;
      repeat first [apply sublist_nil | apply sublist_skip | apply sublist_cons].
  - rewrite !explain_match_elem.
    repeat split; try (intros H; intuition discriminate); try tauto.
    intros Hoff H. specialize (Hc Hoff).
    destruct H as [[_ H]|[[_ H]|[[_ H]|[H _]]]]; try discriminate.
    simpl in H. rewrite Hc in H. vm_compute in H. discriminate.
Qed.

Lemma search_match_reasons_witness :
  exists r : PipelineResult,
    Scenario.run = Ok r /\
    Forall (fun m => "Cross-encoder verified"%string ∉ match_reasons m) (matches r).
Proof.
  destruct Scenario.run as [r|e] eqn:Hr; [|vm_compute in Hr; discriminate].
  exists r. split; [reflexivity|].
  eapply Forall_impl;
    [exact (search_match_reasons Scenario.svc Scenario.pipeline
              Scenario.query None 5 r Hr)|].
  simpl. intros m (_ & _ & _ & _ & _ & H). by apply H.
Defined.

(** ** Views, tiers and the summary *)

(** X14. Under the default thresholds the views of a result agree with
    the classifier: a match is in [exact_matches] exactly when its final
    score is classified EXACT, in [partial_matches] exactly when it is
    classified PARTIAL, and in neither exactly when it is classified
    NONE; selecting the EXACT (PARTIAL) incident matches by their
    confidence gives the incident matches of [exact_matches]
    ([partial_matches]). *)
Theorem default_views_match_tiers (r : PipelineResult) :
  (forall m, m ∈ exact_matches r <->
     m ∈ matches r /\
     EnhancedPatternMatchingEngine._calculate_confidence
       default_settings (final_score m) = EXACT) /\
  (forall m, m ∈ partial_matches r <->
     m ∈ matches r /\
     EnhancedPatternMatchingEngine._calculate_confidence
       default_settings (final_score m) = PARTIAL) /\
  (forall m, m ∈ matches r ->
     ((m ∉ exact_matches r) /\ (m ∉ partial_matches r) <->
      EnhancedPatternMatchingEngine._calculate_confidence
        default_settings (final_score m) = NONE)) /\
  filter (fun im => confidence im = EXACT)
    (EnhancedPatternMatchingEngine.to_incident_match default_settings
       <$> matches r)
  = EnhancedPatternMatchingEngine.to_incident_match default_settings
      <$> exact_matches r /\
  filter (fun im => confidence im = PARTIAL)
    (EnhancedPatternMatchingEngine.to_incident_match default_settings
       <$> matches r)
  = EnhancedPatternMatchingEngine.to_incident_match default_settings
      <$> partial_matches r.
Proof.
  assert (forall m, m ∈ exact_matches r <->
            m ∈ matches r /\
            EnhancedPatternMatchingEngine._calculate_confidence
              default_settings (final_score m) = EXACT) as He.
  { intros m. by rewrite elem_of_exact_matches, calculate_confidence_exact. }
  assert (forall m, m ∈ partial_matches r <->
            m ∈ matches r /\
            EnhancedPatternMatchingEngine._calculate_confidence
              default_settings (final_score m) = PARTIAL) as Hp.
  { intros m. by rewrite elem_of_partial_matches, calculate_confidence_partial. }
  split; [exact He|]. split; [exact Hp|]. split; [|split].
  - intros m Hm. rewrite He, Hp.
    destruct (EnhancedPatternMatchingEngine._calculate_confidence
                default_settings (final_score m)); naive_solver.
  - clear He Hp. unfold exact_matches.
    induction (matches r) as [|m l IH]; [done|].
    rewrite fmap_cons, !filter_cons, IH. simpl.
    pose proof (calculate_confidence_exact default_settings (final_score m)) as H.
    rewrite <- Qleb_le in H. simpl in H.
    destruct (decide (Qleb 0.92 (final_score m) = true)) as [E|E];
      destruct (decide (_ = EXACT)) as [F|F]; try done; tauto.
  - clear He Hp. unfold partial_matches.
    induction (matches r) as [|m l IH]; [done|].
    rewrite fmap_cons, !filter_cons, IH. simpl.
    pose proof (calculate_confidence_partial default_settings (final_score m)) as H.
    rewrite <- Qleb_le, <- Qltb_lt, <- andb_true_iff in H. simpl in H.
    destruct (decide (Qleb 0.70 (final_score m)
                      && Qltb (final_score m) 0.92 = true)) as [E|E];
      destruct (decide (_ = PARTIAL)) as [F|F]; try done; tauto.
Qed.

Lemma filter_disjoint_length {A} (P R : A -> Prop)
    `{forall x, Decision (P x)} `{forall x, Decision (R x)} (l : list A) :
  (forall x, P x -> R x -> False) ->
  (length (filter P l) + length (filter R l) <= length l)%nat.
Proof.
  intros Hd. induction l as [|x l IH]; [done|].
  rewrite !filter_cons.
  destruct (decide (P x)), (decide (R x)); simpl; try lia.
  exfalso. eauto.
Qed.

(** X15. In the summary of a result the exact and partial counts add up
    to at most the total, the exact-match rate lies in [0,1], a result
    without matches has rate 0 (the denominator is never 0), and the rate
    is the exact count divided by the total whenever there is a match. *)
Theorem summary_counts (r : PipelineResult) :
  let s := to_summary_dict r in
  (sd_exact_matches s + sd_partial_matches s <= sd_total_matches s)%nat /\
  (0 <= sd_exact_match_rate s <= 1)%Q /\
  (matches r = [] -> (sd_exact_match_rate s == 0)%Q) /\
  (matches r <> [] ->
   (sd_exact_match_rate s * inject_Z (Z.of_nat (sd_total_matches s))
    == inject_Z (Z.of_nat (sd_exact_matches s)))%Q).
Proof.
  simpl. unfold to_summary_dict. simpl.
  assert (length (exact_matches r) <= length (matches r))%nat as Hle
    by apply length_filter.
  split; [|split; [|split]].
  - apply filter_disjoint_length. intros m He Hp.
    apply andb_true_iff in Hp as [_ Hp].
    apply Qleb_le in He. apply Qltb_lt in Hp. lra.
  - assert (0 < inject_Z (Z.of_nat (Nat.max (length (matches r)) 1)))%Q as Hpos
      by (apply (inject_nat_lt 0); lia).
    split.
    + apply Qle_shift_div_l; [done|].
      assert (0 <= inject_Z (Z.of_nat (length (exact_matches r))))%Q
        by (apply (inject_nat_le 0); lia).
      lra.
    + apply Qle_shift_div_r; [done|].
      assert (inject_Z (Z.of_nat (length (exact_matches r)))
              <= inject_Z (Z.of_nat (Nat.max (length (matches r)) 1)))%Q
        by (apply inject_nat_le; lia).
      lra.
  - intros Hnil. unfold exact_matches. rewrite Hnil. reflexivity.
  - intros Hne.
    assert (Nat.max (length (matches r)) 1 = length (matches r)) as ->.
    { destruct (matches r); [done|simpl; lia]. }
    assert (0 < inject_Z (Z.of_nat (length (matches r))))%Q as Hpos.
    { apply (inject_nat_lt 0). destruct (matches r); [done|simpl; lia]. }
    field. lra.
Qed.

(** ** Detail texts at index time and at query time *)

(** X16. For an incident without symptoms and with a non-empty
    description, the detail text the late-interaction stage rebuilds from
    a payload holding the incident's description and error message is the
    detail text embedded at index time.  With an empty description and an
    error message the two differ: the rebuilt text starts with a space. *)
Theorem detail_text_matches_index_text
    (inc : Incident) (c : CandidateIncident) :
  payload c !! "description"%string = Some (inc_description inc) ->
  payload c !! "error_message"%string = inc_error_message inc ->
  inc_symptoms inc = [] ->
  (inc_description inc <> ""%string ->
   detail_text c = to_detail_embedding inc) /\
  (forall e, inc_description inc = ""%string ->
     inc_error_message inc = Some e -> e <> ""%string ->
     detail_text c = String.append " " e /\ to_detail_embedding inc = e).
Proof.
  intros Hd He Hs. unfold detail_text, to_detail_embedding, payload_get,
    filter_nonempty.
  rewrite Hd, He, Hs. split.
  - intros Hne. destruct (inc_description inc) as [|a d]; [done|].
    destruct (inc_error_message inc) as [[|b e]|]; reflexivity.
  - intros e Hd0 He0 Hne. rewrite Hd0, He0.
    destruct e as [|b e]; [done|]. split; reflexivity.
Qed.

Lemma detail_text_matches_index_text_witness :
  detail_text
    (bm25_candidate
       (mkPoint "INC-1" 0.6
          {[ "description"%string := "pool exhausted"%string;
             "error_message"%string := "timeout"%string ]}))
  = to_detail_embedding
      (mkIncident "pool exhausted" (Some "timeout"%string) []).
Proof.
  destruct (detail_text_matches_index_text
              (mkIncident "pool exhausted" (Some "timeout"%string) [])
              (bm25_candidate
                 (mkPoint "INC-1" 0.6
                    {[ "description"%string := "pool exhausted"%string;
                       "error_message"%string := "timeout"%string ]})))
    as [H _];
    [vm_compute; reflexivity | vm_compute; reflexivity | reflexivity |].
  apply H. discriminate.
Defined.

(** ** The enabled re-ranking stage *)

(** X17. The enabled re-ranking stage (switched on, with a model) always
    returns.  Its output is in descending order of re-rank score, holds at
    most [top_k] and at most [limit] candidates, and each of them is one
    of the first [top_k] input candidates with only its re-rank score
    replaced by the placeholder score of its input position; input
    candidates past [top_k] are dropped. *)
Theorem rerank_enabled_output
    (self : CrossEncoderStage) (query : string)
    (candidates : list CandidateIncident) (limit : Z) :
  rerank_disabled self = false ->
  exists out m,
    CrossEncoderStage_rerank self query candidates limit = Ok (out, m) /\
    sorted_desc cross_encoder_score out /\
    (0 <= top_k self -> (length out <= Z.to_nat (top_k self))%nat) /\
    (0 <= limit -> (length out <= Z.to_nat limit)%nat) /\
    incident_id <$> out ⊆+ incident_id <$> slice_to (top_k self) candidates /\
    Forall (fun o => exists i c,
              slice_to (top_k self) candidates !! i = Some c /\
              o = set_cross_encoder_score (placeholder_score i c) c) out.
Proof.
  intros Hon. unfold CrossEncoderStage_rerank. rewrite Hon.
  eexists _, _. split; [reflexivity|].
  set (scored := imap _ _).
  assert (length scored = length (slice_to (top_k self) candidates)) as Hlen
    by apply length_imap.
  split; [|split; [|split; [|split]]].
  - eapply sorted_desc_prefix; [apply slice_to_prefix|apply sort_desc_sorted].
  - intros Hk. etrans; [apply slice_to_length_le|].
    rewrite (Permutation_length (sort_desc_perm cross_encoder_score scored)).
    rewrite Hlen. by apply slice_to_length.
  - intros Hl. by apply slice_to_length.
  - rewrite slice_to_fmap. etrans; [apply slice_to_submseteq|].
    rewrite sort_desc_perm. unfold scored.
    by rewrite (fmap_imap_const incident_id incident_id).
  - apply Forall_slice_to, Forall_sort_desc, Forall_forall. intros o Ho.
    apply list_elem_of_lookup in Ho as [i Hi]. unfold scored in Hi.
    rewrite list_lookup_imap in Hi.
    destruct (slice_to (top_k self) candidates !! i) as [c|] eqn:Hc;
      simpl in Hi; [|discriminate].
    simplify_eq. by exists i, c.
Qed.

Lemma rerank_enabled_output_witness :
  exists out m,
    CrossEncoderStage_rerank (mkCrossEncoder (Some cross_encoder_model) true 20)
      Scenario.query Scenario.scored_candidates 5 = Ok (out, m) /\
    sorted_desc cross_encoder_score out.
Proof.
  destruct (rerank_enabled_output
              (mkCrossEncoder (Some cross_encoder_model) true 20)
              Scenario.query Scenario.scored_candidates 5 eq_refl)
    as (out & m & H & Hs & _).
  by exists out, m.
Defined.

(** ** Failure of the semantic stage *)

(** X18. Once the keyword stage has answered, an exception raised by the
    embedding of the query or by the summary index is raised unchanged by
    the semantic stage and by the run: no result is returned. *)
Theorem semantic_failure_propagates
    {Embedding : Type} (svc : Services Embedding)
    (self : HybridRetrievalPipeline) (query : string)
    (filters : option (gmap string string)) (limit : Z)
    (kw : list ScoredPoint) :
  filters_truthy filters = false ->
  qdrant_search_text svc "incidents_bm25" query 100 = Ok kw ->
  (forall e, embed svc query = Raise e ->
     BiEncoderStage_search svc query filters 50 = Raise e /\
     search svc self query filters limit = Raise e) /\
  (forall qe e, embed svc query = Ok qe ->
     qdrant_search_vector svc "incidents_summary" qe 50 = Raise e ->
     BiEncoderStage_search svc query filters 50 = Raise e /\
     search svc self query filters limit = Raise e).
Proof.
  intros Hf Hkw.
  unfold search, BM25FilterStage_search, BiEncoderStage_search, query_filter.
  rewrite Hf. simpl. rewrite Hkw. simpl. split.
  - intros e He. rewrite He. by split.
  - intros qe e Hq He. rewrite Hq. simpl. rewrite He. by split.
Qed.

Lemma semantic_failure_propagates_witness :
  search (mkServices string (qdrant_search_text Scenario.svc)
            (qdrant_search_vector Scenario.svc)
            (fun _ => Raise (CollaboratorError "embedding timeout"))
            (cosine_similarity Scenario.svc))
    Scenario.pipeline Scenario.query None 5
  = Raise (CollaboratorError "embedding timeout").
Proof.
  destruct (semantic_failure_propagates
              (mkServices string (qdrant_search_text Scenario.svc)
                 (qdrant_search_vector Scenario.svc)
                 (fun _ => Raise (CollaboratorError "embedding timeout"))
                 (cosine_similarity Scenario.svc))
              Scenario.pipeline Scenario.query None 5 Scenario.keyword_hits
              eq_refl eq_refl) as [H _].
  by destruct (H (CollaboratorError "embedding timeout") eq_refl) as [_ ->].
Defined.

(** ** The engine's pipeline search *)

(** X19. The pipeline the engine builds has the re-ranking stage
    disabled, so with index scores and similarities in [0,1] and the
    default thresholds every incident match the engine's pipeline search
    returns has a similarity score of at most 0.65 and confidence NONE. *)
Theorem engine_pipeline_search_all_none
    {Embedding : Type} (svc : Services Embedding)
    (query : string) (service : option string) (limit : Z)
    (found : list IncidentMatch) :
  scores_in_unit_interval svc ->
  EnhancedPatternMatchingEngine._search_with_pipeline
    svc default_settings init_pipeline query service limit = Ok found ->
  Forall (fun im => (similarity_score im <= 0.65)%Q /\ confidence im = NONE)
         found.
Proof.
  intros Hsvc H.
  unfold EnhancedPatternMatchingEngine._search_with_pipeline in H.
  destruct (search svc init_pipeline query _ limit) as [r|e] eqn:Hr;
    simpl in H; [|discriminate].
  simplify_eq.
  pose proof (search_score_bound svc init_pipeline query _ limit r Hsvc Hr) as Hb.
  apply Forall_fmap. eapply Forall_impl; [exact Hb|]. simpl.
  intros m [_ Hm]. specialize (Hm eq_refl). split; [done|].
  apply calculate_confidence_none. simpl. split; lra.
Qed.

Lemma engine_pipeline_search_all_none_witness :
  exists found : list IncidentMatch,
    Scenario.answer = Ok found /\
    Forall (fun im => confidence im = NONE) found.
Proof.
  destruct Scenario.answer as [found|e] eqn:Ha;
    [|vm_compute in Ha; discriminate].
  exists found. split; [reflexivity|].
  eapply Forall_impl;
    [exact (engine_pipeline_search_all_none Scenario.svc Scenario.query None 5
              found scenario_scores_in_unit_interval Ha)|].
  simpl. by intros im [_ H].
Defined.
